(** * gohttpsnoop: the capture routine and its consumer

    A shallow embedding of [main.go]: the eBPF program held in the
    [source] constant (the uprobe [handler] that walks the stack and the
    [http.Request] of the traced Go function) and the Go side that reads
    the perf events, decodes them with [encoding/binary] and prints them.

    Bytes are [Init.Byte.byte]; unsigned 64-bit integers are [Z] with the
    wrap-around written out; Go strings and byte slices are [list byte]. *)

From Stdlib Require Import String Ascii ZArith List Lia Bool.
From Stdlib Require Import Init.Byte.
From coqutil Require Import Byte Word.LittleEndianList.
Import ListNotations.
Local Open Scope Z_scope.

(** ** Bytes, byte order and 64-bit words *)

(** The two [binary.ByteOrder] values; [bpf.GetHostByteOrder()] returns the
    one of the machine, which is also the order in which the BPF program
    (compiled for the host) lays out its integers. *)
Inductive ByteOrder := LittleEndian | BigEndian.

(** [order.Uint64(b)] *)
Definition Uint64 (order : ByteOrder) (b : list byte) : Z :=
  match order with
  | LittleEndian => le_combine b
  | BigEndian => le_combine (rev b)
  end.

(** The eight bytes of a [u64] in memory. *)
Definition u64_bytes (order : ByteOrder) (v : Z) : list byte :=
  match order with
  | LittleEndian => le_split 8 v
  | BigEndian => rev (le_split 8 v)
  end.

Definition wrap64 (z : Z) : Z := z mod 2 ^ 64.

(** A literal of the source as bytes. *)
Definition B (s : string) : list byte := list_byte_of_string s.

(** The line feed written [\n] in Go and C literals. *)
Definition LF : list byte := [x0a].

Definition zeros (n : nat) : list byte := repeat x00 n.

(** ** C struct layout and Go's packed [encoding/binary] layout *)

(** Member types of the two record declarations: [u64]/[uint64] and
    [char[n]]/[[n]byte]. *)
Inductive field := uint64 | byte_array (n : nat).

Definition sizeof (t : field) : nat :=
  match t with uint64 => 8 | byte_array n => n end%nat.

Definition alignof (t : field) : nat :=
  match t with uint64 => 8 | byte_array _ => 1 end%nat.

Definition align_up (off a : nat) : nat := (((off + a - 1) / a) * a)%nat.

(** Offsets the C compiler gives the members of a struct: each member at
    the next multiple of its alignment. *)
Fixpoint c_offsets (off : nat) (fs : list field) : list nat :=
  match fs with
  | [] => []
  | t :: r => let o := align_up off (alignof t) in
              o :: c_offsets (o + sizeof t) r
  end.

Fixpoint c_end (off : nat) (fs : list field) : nat :=
  match fs with
  | [] => off
  | t :: r => c_end (align_up off (alignof t) + sizeof t) r
  end.

Definition c_align (fs : list field) : nat :=
  fold_right (fun t a => Nat.max (alignof t) a) 1%nat fs.

(** [sizeof(struct ...)]: the end of the last member rounded up to the
    alignment of the struct. *)
Definition c_sizeof (fs : list field) : nat := align_up (c_end 0 fs) (c_align fs).

(** The bytes of a struct object: members at their offsets, the holes and
    the tail zero (the object is initialised with [= {}]). *)
Fixpoint c_members (off : nat) (fs : list (field * list byte)) : list byte :=
  match fs with
  | [] => []
  | (t, bs) :: r =>
      let o := align_up off (alignof t) in
      zeros (o - off) ++ bs ++ c_members (o + sizeof t) r
  end.

Definition c_object (fs : list (field * list byte)) : list byte :=
  let body := c_members 0 fs in
  body ++ zeros (c_sizeof (map fst fs) - length body).

(** Offsets [encoding/binary] uses: members one after the other, no holes. *)
Fixpoint go_offsets (off : nat) (fs : list field) : list nat :=
  match fs with
  | [] => []
  | t :: r => off :: go_offsets (off + sizeof t) r
  end.

(** [binary.Size]/[dataSize] of a struct value. *)
Definition dataSize (fs : list field) : nat :=
  fold_right (fun t n => (sizeof t + n)%nat) 0%nat fs.

(** ** The BPF program ([source]) *)

Module Probe.

(** Target memory as the probe sees it: [None] where a read faults. *)
Definition mem := Z -> option byte.

(** [struct pt_regs]; the handler uses the stack pointer only. *)
Record pt_regs := { sp : Z }.

Definition PT_REGS_SP (ctx : pt_regs) : Z := sp ctx.

(** The macro [OFFSET(ptr, offset)]: [ptr] cast to a pointer to void plus
    [offset * 8], byte arithmetic on a 64-bit pointer. *)
Definition OFFSET (ptr offset : Z) : Z := wrap64 (ptr + offset * 8).

(** [struct event] *)
Record event := {
  method_len : Z;
  path_len : Z;
  method : list byte;
  path : list byte
}.

Definition event_members : list field := [uint64; uint64; byte_array 10; byte_array 128].

Definition sizeof_method : Z := 10.
Definition sizeof_path : Z := 128.

(** [struct event e = {};] *)
Definition event_zero : event :=
  {| method_len := 0; path_len := 0; method := zeros 10; path := zeros 128 |}.

(** The bytes at [src .. src+size-1], or [None] if one of them faults or
    lies outside the 64-bit address space. *)
Fixpoint probe_kernel_read (m : mem) (src : Z) (size : nat) : option (list byte) :=
  match size with
  | O => Some []
  | S k =>
      match (if (0 <=? src) && (src <? 2 ^ 64) then m src else None),
            probe_kernel_read m (src + 1) k with
      | Some b, Some bs => Some (b :: bs)
      | _, _ => None
      end
  end.

Definition EFAULT : Z := 14.

(** The kernel helper [bpf_probe_read(dst, size, unsafe_ptr)]: on success
    the first [size] bytes of [dst] are the bytes read, on a fault they
    are zeroed and the helper returns [-EFAULT]. The result is the return
    value and the new content of [dst]. *)
Definition bpf_probe_read (m : mem) (dst : list byte) (size : Z) (unsafe_ptr : Z)
  : Z * list byte :=
  let n := Z.to_nat size in
  match probe_kernel_read m unsafe_ptr n with
  | Some bs => (0, bs ++ skipn n dst)
  | None => (- EFAULT, zeros n ++ skipn n dst)
  end.

Section Handler.
Variable host : ByteOrder.

(** [bpf_probe_read(&x, sizeof(x), p)] for a [u64 x]: all eight bytes
    of [x] are overwritten, so what [x] held before does not matter. *)
Definition read_u64 (m : mem) (p : Z) : Z :=
  Uint64 host (snd (bpf_probe_read m (zeros 8) 8 p)).

(** [len > sizeof(slot) ? sizeof(slot) : len], on unsigned 64-bit values. *)
Definition guarded (len size : Z) : Z := if len >? size then size else len.

(** The object [e] as [perf_submit] copies it out. *)
Definition event_object (e : event) : list byte :=
  c_object [ (uint64, u64_bytes host (method_len e));
             (uint64, u64_bytes host (path_len e));
             (byte_array 10, method e);
             (byte_array 128, path e) ].

(** [events.perf_submit(ctx, &e, sizeof(e))]: the record handed to the
    perf buffer. *)
Definition perf_submit (e : event) (size : nat) : list byte :=
  firstn size (event_object e).

(** [int handler(struct pt_regs *ctx)]: the return value and the records
    submitted to [events]. *)
Definition handler (m : mem) (ctx : pt_regs) : Z * list (list byte) :=
  let e := event_zero in
  let req := read_u64 m (OFFSET (PT_REGS_SP ctx) 3) in
  (* method *)
  let data := read_u64 m (OFFSET req 0) in
  let e := {| method_len := read_u64 m (OFFSET req 1);
              path_len := path_len e; method := method e; path := path e |} in
  let e := {| method_len := method_len e; path_len := path_len e;
              method := snd (bpf_probe_read m (method e)
                               (guarded (method_len e) sizeof_method) data);
              path := path e |} in
  (* path *)
  let url := read_u64 m (OFFSET req 2) in
  let data := read_u64 m (OFFSET url 7) in
  let e := {| method_len := method_len e;
              path_len := read_u64 m (OFFSET url 8);
              method := method e; path := path e |} in
  let e := {| method_len := method_len e; path_len := path_len e;
              method := method e;
              path := snd (bpf_probe_read m (path e)
                             (guarded (path_len e) sizeof_path) data) |} in
  (* emit event *)
  (0, [perf_submit e (c_sizeof event_members)]).

(** The event the handler has built when it reaches [perf_submit]. *)
Definition captured (m : mem) (ctx : pt_regs) : event :=
  let req := read_u64 m (OFFSET (PT_REGS_SP ctx) 3) in
  let mlen := read_u64 m (OFFSET req 1) in
  let url := read_u64 m (OFFSET req 2) in
  let plen := read_u64 m (OFFSET url 8) in
  {| method_len := mlen;
     path_len := plen;
     method := snd (bpf_probe_read m (zeros 10) (guarded mlen sizeof_method)
                      (read_u64 m (OFFSET req 0)));
     path := snd (bpf_probe_read m (zeros 128) (guarded plen sizeof_path)
                    (read_u64 m (OFFSET url 7))) |}.
End Handler.

End Probe.

(** ** Go's [unicode/utf8] and [fmt], as far as the program uses them *)

Module utf8.

Definition RuneSelf : Z := 0x80.
Definition locb : Z := 0x80.
Definition hicb : Z := 0xBF.

(** The table [first] with [acceptRanges]: for a leading byte the length
    of the sequence and the range of its second byte; [None] is [xx]. *)
Definition first (c : Z) : option (nat * (Z * Z)) :=
  if c <? 0xC2 then None
  else if c <=? 0xDF then Some (2%nat, (locb, hicb))
  else if c =? 0xE0 then Some (3%nat, (0xA0, hicb))
  else if c <=? 0xEC then Some (3%nat, (locb, hicb))
  else if c =? 0xED then Some (3%nat, (locb, 0x9F))
  else if c <=? 0xEF then Some (3%nat, (locb, hicb))
  else if c =? 0xF0 then Some (4%nat, (0x90, hicb))
  else if c <=? 0xF3 then Some (4%nat, (locb, hicb))
  else if c =? 0xF4 then Some (4%nat, (locb, 0x8F))
  else None.

Definition at_ (s : list byte) (i : nat) : Z := byte.unsigned (nth i s x00).

(** How far [RuneCountInString] advances at a byte [c] followed by [rest]. *)
Definition advance (c : byte) (rest : list byte) : nat :=
  if byte.unsigned c <? RuneSelf then 1%nat
  else
    match first (byte.unsigned c) with
    | None => 1%nat
    | Some (size, (lo, hi)) =>
        if (length rest <? size - 1)%nat then 1%nat
        else if (at_ rest 0 <? lo) || (hi <? at_ rest 0) then 1%nat
        else if (size =? 2)%nat then 2%nat
        else if (at_ rest 1 <? locb) || (hicb <? at_ rest 1) then 1%nat
        else if (size =? 3)%nat then 3%nat
        else if (at_ rest 2 <? locb) || (hicb <? at_ rest 2) then 1%nat
        else 4%nat
    end.

(** The loop of [RuneCountInString]; [skip] bytes belong to the rune
    counted last. *)
Fixpoint count (skip : nat) (s : list byte) : nat :=
  match s with
  | [] => 0%nat
  | c :: rest =>
      match skip with
      | S k => count k rest
      | O => S (count (advance c rest - 1) rest)
      end
  end.

Definition RuneCountInString (s : list byte) : nat := count 0 s.

End utf8.

Module fmt.

Definition byte_is (c : byte) (lit : string) : bool :=
  match list_byte_of_string lit with
  | [b] => Byte.eqb c b
  | _ => false
  end.

Definition digit (c : byte) : option nat :=
  let v := byte.unsigned c in
  if (48 <=? v) && (v <=? 57) then Some (Z.to_nat (v - 48)) else None.

(** [writePadding(n)] with the blank as padding byte. *)
Definition writePadding (n : Z) : list byte := repeat x20 (Z.to_nat n).

(** [padString(s)] *)
Definition padString (minus : bool) (wid : option nat) (s : list byte) : list byte :=
  match wid with
  | None | Some O => s
  | Some w =>
      let width := Z.of_nat w - Z.of_nat (utf8.RuneCountInString s) in
      if minus then s ++ writePadding width else writePadding width ++ s
  end.

Inductive state :=
| text
| flags (minus : bool)
| width (minus : bool) (wid : nat).

(** [doPrintf] on string operands, for the formats made of plain text,
    [%%] and [%s] with an optional [-] flag and a decimal width. [None]
    stands for every other format and for an operand count that does
    not match. *)
Fixpoint doPrintf (st : state) (format : list byte) (a : list (list byte))
  : option (list byte) :=
  match format with
  | [] => match st, a with
          | text, [] => Some []
          | _, _ => None
          end
  | c :: rest =>
      let verb (minus : bool) (wid : option nat) :=
        if byte_is c "s" then
          match a with
          | s :: a' => option_map (app (padString minus wid s)) (doPrintf text rest a')
          | [] => None
          end
        else if byte_is c "%" then option_map (cons c) (doPrintf text rest a)
        else None in
      match st with
      | text =>
          if byte_is c "%" then doPrintf (flags false) rest a
          else option_map (cons c) (doPrintf text rest a)
      | flags minus =>
          if byte_is c "-" then doPrintf (flags true) rest a
          else
            match digit c with
            | Some O => None
            | Some d => doPrintf (width minus d) rest a
            | None => verb minus None
            end
      | width minus w =>
          match digit c with
          | Some d => doPrintf (width minus (10 * w + d)) rest a
          | None => verb minus (Some w)
          end
      end
  end.

Definition Sprintf (format : list byte) (a : list (list byte)) : list byte :=
  match doPrintf text format a with
  | Some out => out
  | None => []
  end.

End fmt.

(** ** The Go program (package [main]) *)

Module Main.

(** [type event struct] *)
Record event := {
  MethodLen : Z;
  PathLen : Z;
  Method : list byte;
  Path : list byte
}.

Definition event_fields : list field := [uint64; uint64; byte_array 10; byte_array 128].

(** [var e event] *)
Definition event_zero : event :=
  {| MethodLen := 0; PathLen := 0; Method := zeros 10; Path := zeros 128 |}.

(** The two errors [io.ReadFull] can return on a [bytes.Buffer]. *)
Inductive error := EOF | ErrUnexpectedEOF.

(** [err.Error()] *)
Definition Error (err : error) : list byte :=
  match err with
  | EOF => B "EOF"
  | ErrUnexpectedEOF => B "unexpected EOF"
  end.

(** [io.ReadFull(bytes.NewBuffer(data), buf)] with [len(buf) = n]. *)
Definition ReadFull (data : list byte) (n : nat) : error + list byte :=
  if (n <=? length data)%nat then inr (firstn n data)
  else if (length data =? 0)%nat then inl EOF
  else inl ErrUnexpectedEOF.

Definition take (n : nat) (buf : list byte) : list byte * list byte :=
  (firstn n buf, skipn n buf).

(** [d.value(v)] for [v] of type [event]: the fields in declaration
    order, each from the bytes that follow the previous one. *)
Definition value (order : ByteOrder) (buf : list byte) : event :=
  let (b0, buf) := take 8 buf in
  let (b1, buf) := take 8 buf in
  let (b2, buf) := take 10 buf in
  let (b3, buf) := take 128 buf in
  {| MethodLen := Uint64 order b0;
     PathLen := Uint64 order b1;
     Method := b2;
     Path := b3 |}.

(** [binary.Read(bytes.NewBuffer(data), order, &e)]: the error, if any,
    and the value of [e] afterwards. *)
Definition Read (data : list byte) (order : ByteOrder) (e : event)
  : option error * event :=
  match ReadFull data (dataSize event_fields) with
  | inl err => (Some err, e)
  | inr buf => (None, value order buf)
  end.

(** The slice expression [a[:high]] on an array, converted to a string:
    [None] is the run-time panic "slice bounds out of range". *)
Definition slice_to (a : list byte) (high : Z) : option (list byte) :=
  if high <=? Z.of_nat (length a) then Some (firstn (Z.to_nat high) a) else None.

(** [method, path := string(e.Method[:e.MethodLen]), string(e.Path[:e.PathLen])] *)
Definition fields (e : event) : option (list byte * list byte) :=
  match slice_to (Method e) (MethodLen e) with
  | None => None
  | Some method =>
      match slice_to (Path e) (PathLen e) with
      | None => None
      | Some path => Some (method, path)
      end
  end.

Definition event_format : list byte := B "%-10s %s" ++ LF.
Definition decode_error_format : list byte := B "failed to decode packet: %s" ++ LF.

(** How the receiving goroutine stands after the entries it was given:
    waiting in [<-channel] with the current [e], or stopped by a panic. *)
Inductive goroutine := Receiving (e : event) | Panicked.

(** The goroutine started by [main], run on the entries it receives from
    [channel] in order: what each [fmt.Printf] wrote, and how it stands. *)
Fixpoint consumer (host : ByteOrder) (e : event) (channel : list (list byte))
  : list (list byte) * goroutine :=
  match channel with
  | [] => ([], Receiving e)
  | data :: channel' =>
      match Read data host e with
      | (Some err, e') =>
          let (out, g) := consumer host e' channel' in
          (fmt.Sprintf decode_error_format [Error err] :: out, g)
      | (None, e') =>
          match fields e' with
          | None => ([], Panicked)
          | Some (method, path) =>
              let (out, g) := consumer host e' channel' in
              (fmt.Sprintf event_format [method; path] :: out, g)
          end
      end
  end.

(** What [main] does, as seen from outside. [Fatalf] is the message of
    [log.Fatalf] (without the time stamp of the logger), which is
    followed by [os.Exit(1)]. *)
Inductive action :=
| LoadKprobe (name : list byte)
| AttachUprobe (name symbol : list byte)
| InitPerfMap
| Printf (out : list byte)
| Fatalf (msg : list byte)
| Panic
| Start
| Stop
| Close.

(** What the run depends on: [os.Args], the errors of the three set-up
    calls ([None] is [err == nil]) and the entries the goroutine takes
    from [channel] before the process ends. *)
Record world := {
  Args : list (list byte);
  LoadKprobe_err : option (list byte);
  AttachUprobe_err : option (list byte);
  InitPerfMap_err : option (list byte);
  received : list (list byte)
}.

(** [log.Output] ends the message with a newline if it has none. *)
Definition log_line (s : list byte) : list byte :=
  match rev s with
  | x0a :: _ => s
  | _ => s ++ LF
  end.

(** [func main()]: the actions in order and the exit status. A return
    from [main] is status 0, [log.Fatalf] status 1 and a panic status 2. *)
Definition main (host : ByteOrder) (w : world) : list action * Z :=
  match LoadKprobe_err w with
  | Some err =>
      ([LoadKprobe (B "handler");
        Fatalf (log_line (fmt.Sprintf (B "Failed to load kprobe: %s" ++ LF) [err]))], 1)
  | None =>
      match nth_error (Args w) 1, nth_error (Args w) 2 with
      | Some name, Some symbol =>
          match AttachUprobe_err w with
          | Some err =>
              ([LoadKprobe (B "handler"); AttachUprobe name symbol;
                Fatalf (log_line (fmt.Sprintf (B "could not attach uprobe to symbol: %s: %s")
                                    [symbol; err]))], 1)
          | None =>
              match InitPerfMap_err w with
              | Some err =>
                  ([LoadKprobe (B "handler"); AttachUprobe name symbol; InitPerfMap;
                    Fatalf (log_line (fmt.Sprintf (B "Failed to init perf map: %s" ++ LF) [err]))], 1)
              | None =>
                  let setup := [LoadKprobe (B "handler"); AttachUprobe name symbol; InitPerfMap;
                                Printf (fmt.Sprintf event_format [B "Method"; B "Path"]);
                                Start] in
                  match consumer host event_zero (received w) with
                  | (out, Panicked) => (setup ++ map Printf out ++ [Panic], 2)
                  | (out, Receiving _) => (setup ++ map Printf out ++ [Stop; Close], 0)
                  end
              end
          end
      | _, _ => ([LoadKprobe (B "handler"); Panic; Close], 2)
      end
  end.

(** Everything written to standard output. *)
Definition stdout (t : list action) : list byte :=
  concat (map (fun a => match a with Printf out => out | _ => [] end) t).

End Main.

(** ** Vocabulary of the statements *)

(** The two dynamically-sized fields the handler captures. *)
Inductive captured_field := method_field | path_field.

Definition capacity (f : captured_field) : nat :=
  match f with method_field => 10 | path_field => 128 end%nat.

Definition other (f : captured_field) : captured_field :=
  match f with method_field => path_field | path_field => method_field end.

(** Length member and data member of a field in [struct event]. *)
Definition stored_len (f : captured_field) (e : Probe.event) : Z :=
  match f with method_field => Probe.method_len e | path_field => Probe.path_len e end.

Definition slot (f : captured_field) (e : Probe.event) : list byte :=
  match f with method_field => Probe.method e | path_field => Probe.path e end.

(** The same two members in the Go [event], and the slice expression of
    the consumer on them. *)
Definition decoded_len (f : captured_field) (e : Main.event) : Z :=
  match f with method_field => Main.MethodLen e | path_field => Main.PathLen e end.

Definition decoded_slot (f : captured_field) (e : Main.event) : list byte :=
  match f with method_field => Main.Method e | path_field => Main.Path e end.

Definition field_text (f : captured_field) (e : Main.event) : option (list byte) :=
  Main.slice_to (decoded_slot f e) (decoded_len f e).

Definition component (f : captured_field) (mp : list byte * list byte) : list byte :=
  match f with method_field => fst mp | path_field => snd mp end.

(** The Go [event] with the members of a [struct event]. *)
Definition as_go (e : Probe.event) : Main.event :=
  {| Main.MethodLen := Probe.method_len e;
     Main.PathLen := Probe.path_len e;
     Main.Method := Probe.method e;
     Main.Path := Probe.path e |}.

(** A [struct event] as the handler builds them: full slots and 64-bit
    lengths. *)
Definition well_formed (e : Probe.event) : Prop :=
  length (Probe.method e) = 10%nat /\ length (Probe.path e) = 128%nat /\
  0 <= Probe.method_len e < 2 ^ 64 /\ 0 <= Probe.path_len e < 2 ^ 64.

(** A Go string in the memory of the target: the address of its bytes
    and its length, one machine word each. *)
Record StringHeader := { Data : Z; Len : Z }.

Definition header (f : captured_field) (method path : StringHeader) : StringHeader :=
  match f with method_field => method | path_field => path end.

(** The 64-bit word [v] is readable at address [a]. *)
Definition word_at (host : ByteOrder) (m : Probe.mem) (a v : Z) : Prop :=
  Probe.probe_kernel_read m a 8 = Some (u64_bytes host v) /\ 0 <= v < 2 ^ 64.

(** The frame of the traced function as the README measures it: the
    pointer to the [http.Request] in the fourth word above the stack
    pointer, [Method] at byte 0 of the request, the pointer to the
    [url.URL] at byte 16 and [Path] at byte 56 of the URL. *)
Definition request_at (host : ByteOrder) (m : Probe.mem) (sp : Z)
    (method path : StringHeader) : Prop :=
  exists req url,
    word_at host m (wrap64 (sp + 24)) req /\
    word_at host m (wrap64 (req + 0)) (Data method) /\
    word_at host m (wrap64 (req + 8)) (Len method) /\
    word_at host m (wrap64 (req + 16)) url /\
    word_at host m (wrap64 (url + 56)) (Data path) /\
    word_at host m (wrap64 (url + 64)) (Len path).

(** The addresses the handler passes to the two copying reads. *)
Definition data_pointer (host : ByteOrder) (m : Probe.mem) (ctx : Probe.pt_regs)
    (f : captured_field) : Z :=
  let req := Probe.read_u64 host m (Probe.OFFSET (Probe.PT_REGS_SP ctx) 3) in
  match f with
  | method_field => Probe.read_u64 host m (Probe.OFFSET req 0)
  | path_field =>
      Probe.read_u64 host m (Probe.OFFSET (Probe.read_u64 host m (Probe.OFFSET req 2)) 7)
  end.


(** The size the handler passes to the copying read of a field. *)
Definition copy_size (host : ByteOrder) (m : Probe.mem) (ctx : Probe.pt_regs)
    (f : captured_field) : nat :=
  Z.to_nat (Probe.guarded (stored_len f (Probe.captured host m ctx)) (Z.of_nat (capacity f))).

(** One line of the listing. *)
Definition listing_line (mp : list byte * list byte) : list byte :=
  fst mp ++ repeat x20 (10 - utf8.RuneCountInString (fst mp)) ++ [x20] ++ snd mp ++ LF.

(** A channel entry that decodes to the texts [mp]. *)
Definition decodes_to (host : ByteOrder) (data : list byte) (mp : list byte * list byte) : Prop :=
  exists e, Main.Read data host Main.event_zero = (None, e) /\ Main.fields e = Some mp.

(** The calls [main] makes before it prints or starts the perf map. *)
Definition set_up_only (a : Main.action) : Prop :=
  match a with
  | Main.LoadKprobe _ | Main.AttachUprobe _ _ | Main.InitPerfMap => True
  | _ => False
  end.

(** Memory holding the bytes [bs] from address [a] on, over [m]. *)
Definition store (a : Z) (bs : list byte) (m : Probe.mem) : Probe.mem :=
  fun x => if (a <=? x) && (x <? a + Z.of_nat (length bs))
           then nth_error bs (Z.to_nat (x - a)) else m x.

Definition unmapped : Probe.mem := fun _ => None.

(** A frame of the traced function at stack pointer 1000: the request at
    2000, its URL at 4000 and the two string headers, over [heap]. *)
Definition frame_memory (host : ByteOrder) (method path : StringHeader)
    (heap : Probe.mem) : Probe.mem :=
  store 1000 (zeros 24 ++ u64_bytes host 2000)
    (store 2000 (u64_bytes host (Data method) ++ u64_bytes host (Len method)
                   ++ u64_bytes host 4000)
       (store 4000 (zeros 56 ++ u64_bytes host (Data path) ++ u64_bytes host (Len path))
          heap)).

(** The state of the README's session: [GET] and a path reaching
    [main.ping] (addresses shortened). *)
Definition ping_memory (host : ByteOrder) (path : list byte) : Probe.mem :=
  frame_memory host {| Data := 3000; Len := 3 |}
    {| Data := 5000; Len := Z.of_nat (length path) |}
    (store 3000 (B "GET") (store 5000 path unmapped)).


(** A path of 200 bytes. *)
Definition long_path : list byte := B "/" ++ repeat x61 199.

Definition ping_ctx : Probe.pt_regs := {| Probe.sp := 1000 |}.

(** Runs of the README's command line: one where the symbol cannot be
    attached, one that is interrupted before any event, and one that
    receives the given channel entries. *)
Definition run_with (attach : option (list byte)) (received : list (list byte)) : Main.world :=
  {| Main.Args := [B "gohttpsnoop"; B "./server/main"; B "main.ping"];
     Main.LoadKprobe_err := None;
     Main.AttachUprobe_err := attach;
     Main.InitPerfMap_err := None;
     Main.received := received |}.

Definition attach_failure : Main.world := run_with (Some (B "no such symbol")) [].

Definition quiet_run : Main.world := run_with None [].

(** ** Vocabulary of the further properties *)

(** The [struct event] with the members of a Go [event]. *)
Definition as_c (e : Main.event) : Probe.event :=
  {| Probe.method_len := Main.MethodLen e;
     Probe.path_len := Main.PathLen e;
     Probe.method := Main.Method e;
     Probe.path := Main.Path e |}.

(** No address can be read. *)
Definition nothing_mapped (m : Probe.mem) : Prop := forall a, m a = None.

(** What one [fmt.Printf] of the goroutine writes ends with a line feed. *)
Definition newline_terminated (line : list byte) : Prop :=
  exists body, line = body ++ LF.

(** Two goroutines that both wait for an entry or both have panicked. *)
Definition same_standing (g g' : Main.goroutine) : Prop :=
  match g, g' with
  | Main.Receiving _, Main.Receiving _ => True
  | Main.Panicked, Main.Panicked => True
  | _, _ => False
  end.

(** An invocation of the traced function whose request has the method
    and the path [mp], both within the capacities and readable. *)
Definition frame_holds (host : ByteOrder) (inv : Probe.mem * Probe.pt_regs)
    (mp : list byte * list byte) : Prop :=
  exists method path,
    request_at host (fst inv) (Probe.sp (snd inv)) method path /\
    Len method = Z.of_nat (length (fst mp)) /\
    (length (fst mp) <= 10)%nat /\
    Probe.probe_kernel_read (fst inv) (Data method) (length (fst mp)) = Some (fst mp) /\
    Len path = Z.of_nat (length (snd mp)) /\
    (length (snd mp) <= 128)%nat /\
    Probe.probe_kernel_read (fst inv) (Data path) (length (snd mp)) = Some (snd mp).

(** The records the handler submits over a sequence of invocations. *)
Definition submitted (host : ByteOrder) (invs : list (Probe.mem * Probe.pt_regs))
  : list (list byte) :=
  flat_map (fun inv => snd (Probe.handler host (fst inv) (snd inv))) invs.

(** The request of [ping_memory] with a path of 200 bytes of which only
    the first 128 can be read. *)
Definition ping_memory_page_end (host : ByteOrder) : Probe.mem :=
  frame_memory host {| Data := 3000; Len := 3 |} {| Data := 5000; Len := 200 |}
    (store 3000 (B "GET") (store 5000 (firstn 128 long_path) unmapped)).


(** The request of [ping_memory] with the method [PROPFINDXYZ] of eleven
    bytes and the path [/ping]. *)
Definition long_method_memory (host : ByteOrder) : Probe.mem :=
  frame_memory host {| Data := 3000; Len := 11 |} {| Data := 5000; Len := 5 |}
    (store 3000 (B "PROPFINDXYZ") (store 5000 (B "/ping") unmapped)).

(** * Properties *)

(** ** Words and byte order *)

Lemma u64_bytes_length host v : length (u64_bytes host v) = 8%nat.
Proof.
  destruct host; unfold u64_bytes; rewrite ?length_rev; apply length_le_split.
Qed.

Lemma Uint64_u64_bytes host v : 0 <= v < 2 ^ 64 -> Uint64 host (u64_bytes host v) = v.
Proof.
  intros Hv. destruct host; unfold Uint64, u64_bytes; rewrite ?rev_involutive;
    rewrite le_combine_split; apply Z.mod_small; exact Hv.
Qed.

Lemma u64_bytes_Uint64 host bs : length bs = 8%nat -> u64_bytes host (Uint64 host bs) = bs.
Proof.
  intros Hl. destruct host; unfold Uint64, u64_bytes.
  - apply split_le_combine'; exact Hl.
  - rewrite split_le_combine' by (rewrite length_rev; exact Hl). apply rev_involutive.
Qed.

Lemma Uint64_range host bs : length bs = 8%nat -> 0 <= Uint64 host bs < 2 ^ 64.
Proof.
  intros Hl. destruct host; unfold Uint64.
  - pose proof (le_combine_bound bs) as Hb. rewrite Hl in Hb. exact Hb.
  - pose proof (le_combine_bound (rev bs)) as Hb. rewrite length_rev, Hl in Hb. exact Hb.
Qed.

Lemma zeros_length n : length (zeros n) = n.
Proof. apply repeat_length. Qed.

(** ** The probing reads *)

Lemma probe_kernel_read_length m n : forall src bs,
  Probe.probe_kernel_read m src n = Some bs -> length bs = n.
Proof.
  induction n as [|n IH]; intros src bs H; simpl in H.
  - injection H as <-. reflexivity.
  - destruct (_ && _); [|discriminate H].
    destruct (m src); [|discriminate H].
    destruct (Probe.probe_kernel_read m (src + 1) n) eqn:E; [|discriminate H].
    injection H as <-. simpl. f_equal. eapply IH; eassumption.
Qed.

Lemma bpf_probe_read_length m dst size p :
  0 <= size <= Z.of_nat (length dst) ->
  length (snd (Probe.bpf_probe_read m dst size p)) = length dst.
Proof.
  intros Hs. unfold Probe.bpf_probe_read.
  destruct (Probe.probe_kernel_read m p (Z.to_nat size)) eqn:E; simpl;
    rewrite length_app, length_skipn.
  - apply probe_kernel_read_length in E. lia.
  - rewrite zeros_length. lia.
Qed.

Lemma read_u64_range host m p : 0 <= Probe.read_u64 host m p < 2 ^ 64.
Proof.
  unfold Probe.read_u64. apply Uint64_range.
  rewrite bpf_probe_read_length; rewrite zeros_length; [reflexivity | lia].
Qed.

Lemma read_u64_word_at host m a v : word_at host m a v -> Probe.read_u64 host m a = v.
Proof.
  intros [Hr Hv]. unfold Probe.read_u64, Probe.bpf_probe_read.
  change (Z.to_nat 8) with 8%nat. rewrite Hr. simpl snd.
  change (skipn 8 (zeros 8)) with (@nil byte). rewrite app_nil_r.
  apply Uint64_u64_bytes; exact Hv.
Qed.

Lemma guarded_le len size : 0 <= len -> 0 <= size -> 0 <= Probe.guarded len size <= size.
Proof. intros Hl Hs. unfold Probe.guarded. destruct (Z.gtb_spec len size); lia. Qed.

Lemma guarded_min len size : Probe.guarded len size = Z.min len size.
Proof. unfold Probe.guarded. destruct (Z.gtb_spec len size); lia. Qed.

(** ** The record handed to the perf buffer *)

Lemma event_object_bytes host e :
  length (Probe.method e) = 10%nat -> length (Probe.path e) = 128%nat ->
  Probe.event_object host e =
    u64_bytes host (Probe.method_len e) ++ u64_bytes host (Probe.path_len e)
      ++ Probe.method e ++ Probe.path e ++ zeros 6.
Proof.
  intros Hm Hp. unfold Probe.event_object, c_object.
  cbn [c_members alignof sizeof map fst].
  change (align_up 0 8) with 0%nat. cbn [Nat.add Nat.sub].
  change (align_up 8 8) with 8%nat. cbn [Nat.add Nat.sub].
  change (align_up 16 1) with 16%nat. cbn [Nat.add Nat.sub].
  change (align_up 26 1) with 26%nat.
  change (c_sizeof [uint64; uint64; byte_array 10; byte_array 128]) with 160%nat.
  cbn [zeros repeat app].
  rewrite !length_app, !u64_bytes_length, Hm, Hp. cbn [length Nat.add].
  change (160 - 154)%nat with 6%nat.
  rewrite app_nil_r, <- !app_assoc. reflexivity.
Qed.

Lemma event_object_length host e :
  length (Probe.method e) = 10%nat -> length (Probe.path e) = 128%nat ->
  length (Probe.event_object host e) = 160%nat.
Proof.
  intros Hm Hp. rewrite event_object_bytes by assumption.
  rewrite !length_app, !u64_bytes_length, Hm, Hp, zeros_length. reflexivity.
Qed.

Lemma perf_submit_whole host e :
  length (Probe.method e) = 10%nat -> length (Probe.path e) = 128%nat ->
  Probe.perf_submit host e (c_sizeof Probe.event_members) = Probe.event_object host e.
Proof.
  intros Hm Hp. unfold Probe.perf_submit.
  change (c_sizeof Probe.event_members) with 160%nat.
  rewrite <- (event_object_length host e Hm Hp). apply firstn_all.
Qed.

Lemma handler_captured host m ctx :
  Probe.handler host m ctx =
    (0, [Probe.perf_submit host (Probe.captured host m ctx) (c_sizeof Probe.event_members)]).
Proof. reflexivity. Qed.

Lemma captured_well_formed host m ctx : well_formed (Probe.captured host m ctx).
Proof.
  unfold well_formed, Probe.captured; cbn [Probe.method Probe.path Probe.method_len Probe.path_len].
  repeat split; try apply read_u64_range.
  - rewrite bpf_probe_read_length; [apply zeros_length|].
    rewrite zeros_length.
    pose proof (guarded_le (Probe.read_u64 host m
      (Probe.OFFSET (Probe.read_u64 host m (Probe.OFFSET (Probe.PT_REGS_SP ctx) 3)) 1))
      Probe.sizeof_method) as G.
    unfold Probe.sizeof_method in *. 
    pose proof (read_u64_range host m
      (Probe.OFFSET (Probe.read_u64 host m (Probe.OFFSET (Probe.PT_REGS_SP ctx) 3)) 1)).
    lia.
  - rewrite bpf_probe_read_length; [apply zeros_length|].
    rewrite zeros_length.
    match goal with |- 0 <= Probe.guarded ?l ?s <= _ =>
      pose proof (guarded_le l s) as G; pose proof (read_u64_range host m
        (Probe.OFFSET (Probe.read_u64 host m (Probe.OFFSET
           (Probe.read_u64 host m (Probe.OFFSET (Probe.PT_REGS_SP ctx) 3)) 2)) 8))
    end.
    unfold Probe.sizeof_path in *. lia.
Qed.

(** ** Decoding on the Go side *)

Lemma take_app n (a b : list byte) : length a = n -> Main.take n (a ++ b) = (a, b).
Proof.
  intros <-. unfold Main.take. f_equal.
  - rewrite firstn_app, Nat.sub_diag, firstn_all. cbn [firstn]. apply app_nil_r.
  - rewrite skipn_app, Nat.sub_diag, skipn_all. reflexivity.
Qed.

Lemma value_members order (b0 b1 b2 b3 : list byte) :
  length b0 = 8%nat -> length b1 = 8%nat -> length b2 = 10%nat -> length b3 = 128%nat ->
  Main.value order (b0 ++ b1 ++ b2 ++ b3) =
    {| Main.MethodLen := Uint64 order b0; Main.PathLen := Uint64 order b1;
       Main.Method := b2; Main.Path := b3 |}.
Proof.
  intros H0 H1 H2 H3. unfold Main.value.
  rewrite (take_app 8 b0) by assumption.
  rewrite (take_app 8 b1) by assumption.
  rewrite (take_app 10 b2) by assumption.
  rewrite <- (app_nil_r b3), (take_app 128 b3) by assumption.
  rewrite app_nil_r. reflexivity.
Qed.

Lemma Read_event_object host e suffix e0 :
  well_formed e ->
  Main.Read (Probe.event_object host e ++ suffix) host e0 = (None, as_go e).
Proof.
  intros (Hm & Hp & Hml & Hpl).
  rewrite event_object_bytes by assumption.
  unfold Main.Read, Main.ReadFull.
  change (dataSize Main.event_fields) with 154%nat.
  set (body := u64_bytes host (Probe.method_len e) ++ u64_bytes host (Probe.path_len e)
                 ++ Probe.method e ++ Probe.path e).
  assert (Hb : length body = 154%nat).
  { unfold body. rewrite !length_app, !u64_bytes_length, Hm, Hp. reflexivity. }
  replace ((u64_bytes host (Probe.method_len e) ++ u64_bytes host (Probe.path_len e)
             ++ Probe.method e ++ Probe.path e ++ zeros 6) ++ suffix)
    with (body ++ (zeros 6 ++ suffix))
    by (unfold body; rewrite <- !app_assoc; reflexivity).
  assert (Hle : (154 <=? length (body ++ zeros 6 ++ suffix))%nat = true).
  { apply Nat.leb_le. rewrite length_app. lia. }
  rewrite Hle.
  replace (firstn 154 (body ++ zeros 6 ++ suffix)) with body
    by (pose proof (take_app 154 body (zeros 6 ++ suffix) Hb) as T;
        unfold Main.take in T; injection T as T _; symmetry; exact T).
  unfold body. rewrite value_members; try assumption; try apply u64_bytes_length.
  rewrite !Uint64_u64_bytes by assumption. reflexivity.
Qed.

Lemma Read_short host e data :
  (length data < 154)%nat ->
  Main.Read data host e =
    (Some (if (length data =? 0)%nat then Main.EOF else Main.ErrUnexpectedEOF), e).
Proof.
  intros Hl. unfold Main.Read, Main.ReadFull.
  change (dataSize Main.event_fields) with 154%nat.
  destruct (Nat.leb_spec 154 (length data)); [lia|].
  destruct (length data =? 0)%nat; reflexivity.
Qed.

Lemma slice_to_within (a : list byte) high :
  0 <= high <= Z.of_nat (length a) -> Main.slice_to a high = Some (firstn (Z.to_nat high) a).
Proof.
  intros Hh. unfold Main.slice_to. destruct (Z.leb_spec high (Z.of_nat (length a))); [reflexivity | lia].
Qed.

Lemma slice_to_beyond (a : list byte) high :
  Z.of_nat (length a) < high -> Main.slice_to a high = None.
Proof.
  intros Hh. unfold Main.slice_to. destruct (Z.leb_spec high (Z.of_nat (length a))); [lia | reflexivity].
Qed.

(** ** The capture routine on a frame of the traced function *)

Lemma copy_success m dst size p bs :
  Probe.probe_kernel_read m p (Z.to_nat size) = Some bs ->
  snd (Probe.bpf_probe_read m dst size p) = bs ++ skipn (Z.to_nat size) dst.
Proof. intros H. unfold Probe.bpf_probe_read. rewrite H. reflexivity. Qed.

Lemma skipn_zeros k : forall n, skipn k (zeros n) = zeros (n - k).
Proof.
  induction k as [|k IH]; intros [|n]; try reflexivity. apply IH.
Qed.

Lemma copy_fault m n size p :
  Probe.probe_kernel_read m p (Z.to_nat size) = None ->
  0 <= size <= Z.of_nat n ->
  snd (Probe.bpf_probe_read m (zeros n) size p) = zeros n.
Proof.
  intros H Hs. unfold Probe.bpf_probe_read. rewrite H. cbn [snd].
  rewrite skipn_zeros. unfold zeros. rewrite <- repeat_app. f_equal. lia.
Qed.

Lemma captured_slot host m ctx f :
  slot f (Probe.captured host m ctx) =
    snd (Probe.bpf_probe_read m (zeros (capacity f))
           (Probe.guarded (stored_len f (Probe.captured host m ctx)) (Z.of_nat (capacity f)))
           (data_pointer host m ctx f)).
Proof. destruct f; reflexivity. Qed.

Lemma captured_request host m ctx method path :
  request_at host m (Probe.sp ctx) method path ->
  forall f,
    stored_len f (Probe.captured host m ctx) = Len (header f method path) /\
    data_pointer host m ctx f = Data (header f method path).
Proof.
  intros (req & url & Hreq & Hmd & Hml & Hurl & Hpd & Hpl) f.
  apply read_u64_word_at in Hreq, Hmd, Hml, Hurl, Hpd, Hpl.
  unfold data_pointer, Probe.captured, Probe.OFFSET, Probe.PT_REGS_SP.
  change (3 * 8) with 24. change (0 * 8) with 0. change (1 * 8) with 8.
  change (2 * 8) with 16. change (7 * 8) with 56. change (8 * 8) with 64.
  rewrite Hreq. destruct f; cbn [stored_len header Probe.method_len Probe.path_len].
  - rewrite Hml, Hmd. split; reflexivity.
  - rewrite Hurl, Hpl, Hpd. split; reflexivity.
Qed.

Lemma handler_emits host m ctx :
  Probe.handler host m ctx = (0, [Probe.event_object host (Probe.captured host m ctx)]).
Proof.
  rewrite handler_captured.
  destruct (captured_well_formed host m ctx) as (Hm & Hp & _).
  rewrite perf_submit_whole by assumption. reflexivity.
Qed.

Lemma Read_emitted host m ctx suffix e0 :
  Main.Read (Probe.event_object host (Probe.captured host m ctx) ++ suffix) host e0 =
    (None, as_go (Probe.captured host m ctx)).
Proof. apply Read_event_object, captured_well_formed. Qed.

Lemma slot_length host m ctx f : length (slot f (Probe.captured host m ctx)) = capacity f.
Proof.
  destruct (captured_well_formed host m ctx) as (Hm & Hp & _). destruct f; assumption.
Qed.

Lemma stored_len_range host m ctx f : 0 <= stored_len f (Probe.captured host m ctx) < 2 ^ 64.
Proof.
  destruct (captured_well_formed host m ctx) as (_ & _ & Hm & Hp). destruct f; assumption.
Qed.

Lemma decoded_as_go f e :
  decoded_len f (as_go e) = stored_len f e /\ decoded_slot f (as_go e) = slot f e.
Proof. destruct f; split; reflexivity. Qed.

(** C9: the layout descriptor is the constants of the handler. When the
    word at [sp + 24] points to the request, the words at bytes 0 and 8 of
    the request are the method's data pointer and length, the word at byte
    16 points to the URL and the words at bytes 56 and 64 of the URL are
    the path's data pointer and length, the handler emits one record with
    these two lengths and with the bytes copied from these two pointers. *)
Theorem layout_descriptor_offsets host m ctx method path :
  request_at host m (Probe.sp ctx) method path ->
  let e := Probe.captured host m ctx in
  Probe.handler host m ctx = (0, [Probe.event_object host e]) /\
  Probe.method_len e = Len method /\
  Probe.path_len e = Len path /\
  Probe.method e =
    snd (Probe.bpf_probe_read m (zeros 10) (Z.min (Len method) 10) (Data method)) /\
  Probe.path e =
    snd (Probe.bpf_probe_read m (zeros 128) (Z.min (Len path) 128) (Data path)).
Proof.
  intros Hreq e.
  destruct (captured_request host m ctx method path Hreq method_field) as [Hml Hmp].
  destruct (captured_request host m ctx method path Hreq path_field) as [Hpl Hpp].
  pose proof (captured_slot host m ctx method_field) as Hms.
  pose proof (captured_slot host m ctx path_field) as Hps.
  fold e in Hml, Hpl, Hms, Hps.
  rewrite Hml, Hmp, guarded_min in Hms. rewrite Hpl, Hpp, guarded_min in Hps.
  cbn [stored_len slot header capacity] in *.
  repeat split; try assumption. apply handler_emits.
Qed.

Ltac concrete_frame :=
  exists 2000, 4000; unfold word_at;
  repeat split; try (vm_compute; reflexivity); try (vm_compute; discriminate).

Lemma layout_descriptor_offsets_witness :
  request_at LittleEndian (ping_memory LittleEndian (B "/ping")) (Probe.sp ping_ctx)
    {| Data := 3000; Len := 3 |} {| Data := 5000; Len := 5 |} /\
  let m := ping_memory LittleEndian (B "/ping") in
  let e := Probe.captured LittleEndian m ping_ctx in
  Probe.handler LittleEndian m ping_ctx = (0, [Probe.event_object LittleEndian e]) /\
  Probe.method_len e = 3 /\
  Probe.path_len e = 5 /\
  Probe.method e = snd (Probe.bpf_probe_read m (zeros 10) (Z.min 3 10) 3000) /\
  Probe.path e = snd (Probe.bpf_probe_read m (zeros 128) (Z.min 5 128) 5000).
Proof.
  assert (H : request_at LittleEndian (ping_memory LittleEndian (B "/ping")) (Probe.sp ping_ctx)
                {| Data := 3000; Len := 3 |} {| Data := 5000; Len := 5 |})
    by concrete_frame.
  split; [exact H|].
  exact (layout_descriptor_offsets LittleEndian _ ping_ctx _ _ H).
Defined.

(** ** Truncation and round trip *)

Lemma emitted_record host m ctx :
  exists buf,
    Probe.handler host m ctx = (0, [buf]) /\
    length buf = 160%nat /\
    forall e0, Main.Read buf host e0 = (None, as_go (Probe.captured host m ctx)).
Proof.
  exists (Probe.event_object host (Probe.captured host m ctx)).
  destruct (captured_well_formed host m ctx) as (Hm & Hp & _).
  split; [apply handler_emits|]. split; [apply event_object_length; assumption|].
  intros e0. rewrite <- (app_nil_r (Probe.event_object _ _)). apply Read_emitted.
Qed.

(** C2: a field whose declared length exceeds its capacity. The handler
    asks for exactly [capacity] bytes, the slot holds the first [capacity]
    bytes found at the data pointer, and the length member holds the
    declared length, in the struct and in the emitted record as the
    consumer reads it. *)
Theorem capture_truncates_long_field host m ctx method path f bs :
  request_at host m (Probe.sp ctx) method path ->
  Z.of_nat (capacity f) < Len (header f method path) ->
  Probe.probe_kernel_read m (Data (header f method path)) (capacity f) = Some bs ->
  Probe.guarded (Len (header f method path)) (Z.of_nat (capacity f)) = Z.of_nat (capacity f) /\
  slot f (Probe.captured host m ctx) = bs /\
  length bs = capacity f /\
  stored_len f (Probe.captured host m ctx) = Len (header f method path) /\
  exists buf,
    Probe.handler host m ctx = (0, [buf]) /\
    forall e0, exists e',
      Main.Read buf host e0 = (None, e') /\
      decoded_len f e' = Len (header f method path) /\
      decoded_slot f e' = bs.
Proof.
  intros Hreq Hlong Hread.
  destruct (captured_request host m ctx method path Hreq f) as [Hlen Hptr].
  assert (Hg : Probe.guarded (Len (header f method path)) (Z.of_nat (capacity f))
               = Z.of_nat (capacity f))
    by (rewrite guarded_min; lia).
  assert (Hslot : slot f (Probe.captured host m ctx) = bs).
  { rewrite captured_slot, Hlen, Hptr, Hg.
    rewrite (copy_success m _ _ _ bs) by (rewrite Nat2Z.id; exact Hread).
    rewrite Nat2Z.id, skipn_zeros, Nat.sub_diag. apply app_nil_r. }
  repeat split; try assumption.
  - eapply probe_kernel_read_length; eassumption.
  - destruct (emitted_record host m ctx) as (buf & Hh & _ & Hr).
    exists buf. split; [exact Hh|]. intros e0. exists (as_go (Probe.captured host m ctx)).
    split; [apply Hr|]. destruct (decoded_as_go f (Probe.captured host m ctx)) as [-> ->].
    split; assumption.
Qed.

Lemma capture_truncates_long_field_witness :
  request_at LittleEndian (ping_memory LittleEndian long_path) (Probe.sp ping_ctx)
    {| Data := 3000; Len := 3 |} {| Data := 5000; Len := 200 |} /\
  Z.of_nat (capacity path_field) < 200 /\
  Probe.probe_kernel_read (ping_memory LittleEndian long_path) 5000 (capacity path_field)
    = Some (firstn 128 long_path) /\
  stored_len path_field (Probe.captured LittleEndian (ping_memory LittleEndian long_path) ping_ctx)
    = 200 /\
  slot path_field (Probe.captured LittleEndian (ping_memory LittleEndian long_path) ping_ctx)
    = firstn 128 long_path.
Proof.
  assert (H : request_at LittleEndian (ping_memory LittleEndian long_path) (Probe.sp ping_ctx)
                {| Data := 3000; Len := 3 |} {| Data := 5000; Len := 200 |})
    by concrete_frame.
  assert (Hl : Z.of_nat (capacity path_field) < 200) by (vm_compute; reflexivity).
  assert (Hr : Probe.probe_kernel_read (ping_memory LittleEndian long_path) 5000
                 (capacity path_field) = Some (firstn 128 long_path))
    by (vm_compute; reflexivity).
  destruct (capture_truncates_long_field LittleEndian _ ping_ctx _ _ path_field
              (firstn 128 long_path) H Hl Hr) as (_ & Hs & _ & Hsl & _).
  repeat split; assumption.
Defined.

Lemma field_text_captured host m ctx f :
  stored_len f (Probe.captured host m ctx) <= Z.of_nat (capacity f) ->
  field_text f (as_go (Probe.captured host m ctx)) =
    Some (firstn (Z.to_nat (stored_len f (Probe.captured host m ctx)))
            (slot f (Probe.captured host m ctx))).
Proof.
  intros Hle. unfold field_text.
  destruct (decoded_as_go f (Probe.captured host m ctx)) as [-> ->].
  apply slice_to_within. rewrite slot_length.
  pose proof (stored_len_range host m ctx f). lia.
Qed.

Lemma fields_field_text e :
  Main.fields e =
    match field_text method_field e with
    | None => None
    | Some method =>
        match field_text path_field e with
        | None => None
        | Some path => Some (method, path)
        end
    end.
Proof. reflexivity. Qed.

Lemma firstn_exact (a b : list byte) : firstn (length a) (a ++ b) = a.
Proof. rewrite firstn_app, Nat.sub_diag, firstn_all. cbn [firstn]. apply app_nil_r. Qed.

(** A field no longer than its capacity, taken alone. The handler emits
    one record; the consumer's [binary.Read] of it succeeds, and its slice
    expression for the field yields exactly the bytes the target held.
    Only when the other field fits too does the pair of texts the consumer
    prints exist, with these bytes as its component. *)
Theorem capture_decode_round_trip host m ctx method path f bs :
  request_at host m (Probe.sp ctx) method path ->
  Len (header f method path) = Z.of_nat (length bs) ->
  (length bs <= capacity f)%nat ->
  Probe.probe_kernel_read m (Data (header f method path)) (length bs) = Some bs ->
  exists buf e',
    Probe.handler host m ctx = (0, [buf]) /\
    (forall e0, Main.Read buf host e0 = (None, e')) /\
    field_text f e' = Some bs /\
    (Len (header (other f) method path) <= Z.of_nat (capacity (other f)) ->
     exists mp, Main.fields e' = Some mp /\ component f mp = bs).
Proof.
  intros Hreq Hlen Hfit Hread.
  destruct (captured_request host m ctx method path Hreq f) as [Hsl Hptr].
  destruct (captured_request host m ctx method path Hreq (other f)) as [Hol _].
  destruct (emitted_record host m ctx) as (buf & Hh & _ & Hr).
  assert (Hslot : slot f (Probe.captured host m ctx)
                  = bs ++ skipn (length bs) (zeros (capacity f))).
  { rewrite captured_slot, Hsl, Hptr, Hlen.
    replace (Probe.guarded (Z.of_nat (length bs)) (Z.of_nat (capacity f)))
      with (Z.of_nat (length bs)) by (rewrite guarded_min; lia).
    rewrite (copy_success m _ _ _ bs) by (rewrite Nat2Z.id; exact Hread).
    rewrite Nat2Z.id. reflexivity. }
  assert (Hft : field_text f (as_go (Probe.captured host m ctx)) = Some bs).
  { rewrite field_text_captured by (rewrite Hsl, Hlen; lia).
    rewrite Hsl, Hlen, Nat2Z.id, Hslot, firstn_exact. reflexivity. }
  exists buf, (as_go (Probe.captured host m ctx)).
  split; [exact Hh|]. split; [exact Hr|]. split; [exact Hft|].
  intros Hother.
  assert (Hot : exists t, field_text (other f) (as_go (Probe.captured host m ctx)) = Some t).
  { eexists. apply field_text_captured. rewrite Hol. exact Hother. }
  destruct Hot as [t Ht]. rewrite fields_field_text.
  destruct f; cbn [other] in Ht; rewrite Hft, Ht; eexists; split; reflexivity.
Qed.

Lemma capture_decode_round_trip_witness :
  request_at LittleEndian (ping_memory LittleEndian (B "/ping")) (Probe.sp ping_ctx)
    {| Data := 3000; Len := 3 |} {| Data := 5000; Len := 5 |} /\
  5 = Z.of_nat (length (B "/ping")) /\
  (length (B "/ping") <= capacity path_field)%nat /\
  Probe.probe_kernel_read (ping_memory LittleEndian (B "/ping")) 5000 (length (B "/ping"))
    = Some (B "/ping") /\
  exists buf e',
    Probe.handler LittleEndian (ping_memory LittleEndian (B "/ping")) ping_ctx = (0, [buf]) /\
    (forall e0, Main.Read buf LittleEndian e0 = (None, e')) /\
    field_text path_field e' = Some (B "/ping") /\
    (3 <= Z.of_nat (capacity method_field) ->
     exists mp, Main.fields e' = Some mp /\ component path_field mp = B "/ping").
Proof.
  assert (H : request_at LittleEndian (ping_memory LittleEndian (B "/ping")) (Probe.sp ping_ctx)
                {| Data := 3000; Len := 3 |} {| Data := 5000; Len := 5 |})
    by concrete_frame.
  assert (Hl : 5 = Z.of_nat (length (B "/ping"))) by reflexivity.
  assert (Hc : (length (B "/ping") <= capacity path_field)%nat) by (vm_compute; lia).
  assert (Hr : Probe.probe_kernel_read (ping_memory LittleEndian (B "/ping")) 5000
                 (length (B "/ping")) = Some (B "/ping"))
    by (vm_compute; reflexivity).
  repeat (split; [assumption|]).
  exact (capture_decode_round_trip LittleEndian _ ping_ctx _ _ path_field (B "/ping") H Hl Hc Hr).
Defined.

(** ** Layout of the record on both sides *)

(** C4: the C [struct event] and the Go [event] declare the same members;
    the C compiler and [encoding/binary] place them at the same offsets
    0, 8, 16 and 26, without a hole between them; the struct is those 154
    bytes rounded up to its 8-byte alignment. Every record the handler
    emits is the two lengths in host byte order, the two arrays and six
    zero bytes, and the consumer's [binary.Read] with the host byte order
    gets the four members back from it, whatever follows the record in
    the channel entry. *)
Theorem record_layouts_agree host m ctx :
  Probe.event_members = Main.event_fields /\
  c_offsets 0 Probe.event_members = [0; 8; 16; 26]%nat /\
  go_offsets 0 Main.event_fields = [0; 8; 16; 26]%nat /\
  c_end 0 Probe.event_members = dataSize Main.event_fields /\
  dataSize Main.event_fields = (8 + 8 + 10 + 128)%nat /\
  c_sizeof Probe.event_members = align_up (8 + 8 + 10 + 128) 8 /\
  exists buf,
    Probe.handler host m ctx = (0, [buf]) /\
    buf = u64_bytes host (Probe.method_len (Probe.captured host m ctx))
            ++ u64_bytes host (Probe.path_len (Probe.captured host m ctx))
            ++ Probe.method (Probe.captured host m ctx)
            ++ Probe.path (Probe.captured host m ctx)
            ++ zeros 6 /\
    length (Probe.method (Probe.captured host m ctx)) = 10%nat /\
    length (Probe.path (Probe.captured host m ctx)) = 128%nat /\
    length buf = c_sizeof Probe.event_members /\
    forall suffix e0,
      Main.Read (buf ++ suffix) host e0 = (None, as_go (Probe.captured host m ctx)).
Proof.
  repeat (split; [reflexivity|]).
  destruct (captured_well_formed host m ctx) as (Hm & Hp & Hr).
  exists (Probe.event_object host (Probe.captured host m ctx)).
  split; [apply handler_emits|].
  split; [apply event_object_bytes; assumption|].
  split; [exact Hm|]. split; [exact Hp|].
  split; [apply event_object_length; assumption|].
  intros suffix e0. apply Read_emitted.
Qed.

(** ** Faulting reads *)

Lemma read_u64_fault host m p :
  Probe.probe_kernel_read m p 8 = None -> Probe.read_u64 host m p = 0.
Proof.
  intros H. unfold Probe.read_u64, Probe.bpf_probe_read.
  change (Z.to_nat 8) with 8%nat. rewrite H. destruct host; vm_compute; reflexivity.
Qed.


Lemma slot_of_copy host m ctx f :
  (Probe.probe_kernel_read m (data_pointer host m ctx f) (copy_size host m ctx f) = None ->
   slot f (Probe.captured host m ctx) = zeros (capacity f)) /\
  (forall bs,
     Probe.probe_kernel_read m (data_pointer host m ctx f) (copy_size host m ctx f) = Some bs ->
     slot f (Probe.captured host m ctx) = bs ++ zeros (capacity f - length bs)).
Proof.
  pose proof (stored_len_range host m ctx f) as Hr.
  pose proof (guarded_le (stored_len f (Probe.captured host m ctx)) (Z.of_nat (capacity f))) as Hg.
  unfold copy_size. split.
  - intros H. rewrite captured_slot. apply copy_fault; [exact H | lia].
  - intros bs H. rewrite captured_slot, (copy_success m _ _ _ bs H), skipn_zeros.
    apply probe_kernel_read_length in H. rewrite H. reflexivity.
Qed.



(** ** The listing *)

Ltac run_format :=
  unfold fmt.Sprintf;
  match goal with
  | |- context [fmt.doPrintf ?st ?f ?a] =>
      let f' := eval vm_compute in f in change f with f'
  end;
  cbv -[fmt.padString app utf8.RuneCountInString repeat Nat.sub].

Lemma Sprintf_event method path :
  fmt.Sprintf Main.event_format [method; path] = listing_line (method, path).
Proof.
  run_format.
  unfold listing_line, fmt.padString, fmt.writePadding, LF. cbn [fst snd].
  replace (Z.to_nat (Z.of_nat 10 - Z.of_nat (utf8.RuneCountInString method)))
    with (10 - utf8.RuneCountInString method)%nat by lia.
  rewrite <- !app_assoc. reflexivity.
Qed.

Lemma Sprintf_decode_error err :
  fmt.Sprintf Main.decode_error_format [Main.Error err] =
    B "failed to decode packet: " ++ Main.Error err ++ LF.
Proof. run_format. unfold fmt.padString. reflexivity. Qed.

Lemma first_spec c size lo hi :
  utf8.first c = Some (size, (lo, hi)) ->
  (size = 2 \/ size = 3 \/ size = 4)%nat /\ 128 <= lo.
Proof.
  unfold utf8.first, utf8.locb, utf8.hicb.
  repeat match goal with
         | |- context [if ?b then _ else _] => destruct b
         end; intros H; inversion H; subst; split; try lia; auto.
Qed.

Lemma at_space_low (r : list byte) lo : 128 <= lo -> (utf8.at_ (x20 :: r) 0 <? lo) = true.
Proof. intros H. apply Z.ltb_lt. change (utf8.at_ (x20 :: r) 0) with 32. lia. Qed.

Lemma advance_app_spaces c rest n :
  utf8.advance c (rest ++ repeat x20 n) = utf8.advance c rest.
Proof.
  unfold utf8.advance.
  destruct (byte.unsigned c <? utf8.RuneSelf); [reflexivity|].
  destruct (utf8.first (byte.unsigned c)) as [[size [lo hi]]|] eqn:F; [|reflexivity].
  apply first_spec in F. destruct F as [Hsize Hlo].
  assert (Hsp : forall r, (utf8.at_ (x20 :: r) 0 <? lo) = true)
    by (intros r; apply at_space_low; exact Hlo).
  assert (Hsp1 : forall a r, (utf8.at_ (a :: x20 :: r) 1 <? utf8.locb) = true)
    by (intros; reflexivity).
  assert (Hsp2 : forall a b r, (utf8.at_ (a :: b :: x20 :: r) 2 <? utf8.locb) = true)
    by (intros; reflexivity).
  destruct Hsize as [-> | [-> | ->]];
    destruct rest as [|a [|b [|d r]]]; destruct n as [|[|[|n]]];
    cbn [app repeat length Nat.ltb Nat.leb Nat.sub Nat.eqb];
    rewrite ?Hsp, ?Hsp1, ?Hsp2, ?orb_true_r; cbn [orb];
    try reflexivity.
  all: repeat match goal with
              | |- context [if ?b then _ else _] => destruct b
              end; reflexivity.
Qed.

Lemma advance_within c rest : (utf8.advance c rest - 1 <= length rest)%nat.
Proof.
  unfold utf8.advance.
  destruct (byte.unsigned c <? utf8.RuneSelf); [cbn; lia|].
  destruct (utf8.first (byte.unsigned c)) as [[size [lo hi]]|] eqn:F; [|cbn; lia].
  apply first_spec in F. destruct F as [Hsize _].
  destruct (Nat.ltb_spec (length rest) (size - 1)); [cbn; lia|].
  destruct Hsize as [-> | [-> | ->]]; cbn [Nat.eqb];
    repeat match goal with
           | |- context [if ?b then _ else _] => destruct b
           end; cbn [Nat.sub] in *; lia.
Qed.

Lemma count_spaces n : utf8.count 0 (repeat x20 n) = n.
Proof.
  induction n as [|n IH]; [reflexivity|].
  cbn [repeat utf8.count]. change (utf8.advance x20 (repeat x20 n)) with 1%nat.
  cbn [Nat.sub]. rewrite IH. reflexivity.
Qed.

Lemma count_app_spaces n : forall s skip,
  (skip <= length s)%nat ->
  utf8.count skip (s ++ repeat x20 n) = (utf8.count skip s + n)%nat.
Proof.
  induction s as [|c s IH]; intros skip Hskip.
  - cbn [length] in Hskip. replace skip with 0%nat by lia. apply count_spaces.
  - cbn [app utf8.count]. destruct skip as [|k].
    + rewrite advance_app_spaces, IH by apply advance_within. reflexivity.
    + apply IH. cbn [length] in Hskip. lia.
Qed.

Lemma count_le : forall s skip, (utf8.count skip s <= length s)%nat.
Proof.
  induction s as [|c s IH]; intros skip; [cbn; lia|].
  cbn [utf8.count length]. destruct skip.
  - specialize (IH (utf8.advance c s - 1)%nat). lia.
  - specialize (IH skip). lia.
Qed.

Lemma column_width method :
  (length method <= 10)%nat ->
  utf8.RuneCountInString (method ++ repeat x20 (10 - utf8.RuneCountInString method)) = 10%nat.
Proof.
  intros H. unfold utf8.RuneCountInString.
  rewrite count_app_spaces by lia. pose proof (count_le method 0). lia.
Qed.

Lemma count_ascii : forall s,
  Forall (fun b => byte.unsigned b < 128) s -> utf8.count 0 s = length s.
Proof.
  induction 1 as [|b s Hb Hs IH]; [reflexivity|].
  cbn [utf8.count length]. unfold utf8.advance, utf8.RuneSelf.
  destruct (Z.ltb_spec (byte.unsigned b) 128); [|lia].
  cbn [Nat.sub]. rewrite IH. reflexivity.
Qed.

Lemma Read_success_any host data e0 e :
  Main.Read data host e0 = (None, e) -> forall e1, Main.Read data host e1 = (None, e).
Proof.
  unfold Main.Read. destruct (Main.ReadFull data (dataSize Main.event_fields));
    intros H other_e; [discriminate H | exact H].
Qed.

Lemma consumer_listing host channel evs :
  Forall2 (decodes_to host) channel evs ->
  forall e, exists e',
    Main.consumer host e channel = (map listing_line evs, Main.Receiving e').
Proof.
  induction 1 as [|data mp channel evs (e1 & Hr & Hf) _ IH]; intros e.
  - exists e. reflexivity.
  - cbn [Main.consumer map]. rewrite (Read_success_any host data _ e1 Hr e), Hf.
    destruct mp as [method path]. destruct (IH e1) as [e' ->].
    exists e'. rewrite Sprintf_event. reflexivity.
Qed.

Lemma stdout_app t1 t2 : Main.stdout (t1 ++ t2) = Main.stdout t1 ++ Main.stdout t2.
Proof. unfold Main.stdout. rewrite map_app, concat_app. reflexivity. Qed.

Lemma stdout_Printf out : Main.stdout (map Main.Printf out) = concat out.
Proof.
  unfold Main.stdout. induction out as [|o out IH]; [reflexivity|].
  cbn [map concat]. f_equal. exact IH.
Qed.

(** C6: when the set-up succeeds and the entries received decode to the
    events [evs], standard output is the header line followed by one line
    per event in order; a line is the method, blanks up to a width of ten
    characters, one blank, the path and a line feed. A method of at most
    ten bytes and its padding are exactly ten characters, ten bytes when
    the method is ASCII, and [GET], [/ping] gives the line of the README. *)
Theorem listing_format host w prog name symbol rest evs :
  Main.Args w = prog :: name :: symbol :: rest ->
  Main.LoadKprobe_err w = None ->
  Main.AttachUprobe_err w = None ->
  Main.InitPerfMap_err w = None ->
  Forall2 (decodes_to host) (Main.received w) evs ->
  Main.stdout (fst (Main.main host w)) =
    (B "Method     Path" ++ LF) ++ concat (map listing_line evs) /\
  (forall method path,
     fmt.Sprintf Main.event_format [method; path] =
       method ++ repeat x20 (10 - utf8.RuneCountInString method) ++ [x20] ++ path ++ LF) /\
  (forall method,
     (length method <= 10)%nat ->
     utf8.RuneCountInString (method ++ repeat x20 (10 - utf8.RuneCountInString method))
       = 10%nat) /\
  (forall method,
     Forall (fun b => byte.unsigned b < 128) method -> (length method <= 10)%nat ->
     length (method ++ repeat x20 (10 - utf8.RuneCountInString method)) = 10%nat) /\
  listing_line (B "GET", B "/ping") = B "GET        /ping" ++ LF.
Proof.
  intros Hargs Hl Ha Hp Hevs. split; [|split; [|split; [|split]]].
  - unfold Main.main. rewrite Hl, Hargs, Ha, Hp. cbn [nth_error].
    destruct (consumer_listing host _ _ Hevs Main.event_zero) as [e' ->].
    cbn [fst]. rewrite stdout_app, stdout_app, stdout_Printf.
    change (Main.stdout [Main.Stop; Main.Close]) with (@nil byte). rewrite app_nil_r.
    f_equal.
  - intros method path. apply Sprintf_event.
  - intros method Hlen. apply column_width. exact Hlen.
  - intros method Hascii Hlen. unfold utf8.RuneCountInString.
    rewrite count_ascii by assumption. rewrite length_app, repeat_length. lia.
  - reflexivity.
Qed.

Lemma listing_format_witness :
  Main.Args (run_with None
    (snd (Probe.handler LittleEndian (ping_memory LittleEndian (B "/ping")) ping_ctx)))
    = [B "gohttpsnoop"; B "./server/main"; B "main.ping"] /\
  Forall2 (decodes_to LittleEndian)
    (snd (Probe.handler LittleEndian (ping_memory LittleEndian (B "/ping")) ping_ctx))
    [(B "GET", B "/ping")] /\
  Main.stdout (fst (Main.main LittleEndian (run_with None
    (snd (Probe.handler LittleEndian (ping_memory LittleEndian (B "/ping")) ping_ctx))))) =
    (B "Method     Path" ++ LF) ++ concat (map listing_line [(B "GET", B "/ping")]).
Proof.
  assert (H : Forall2 (decodes_to LittleEndian)
    (snd (Probe.handler LittleEndian (ping_memory LittleEndian (B "/ping")) ping_ctx))
    [(B "GET", B "/ping")]).
  { rewrite handler_emits. cbn [snd]. constructor; [|constructor].
    eexists. split.
    - rewrite <- (app_nil_r (Probe.event_object _ _)). apply Read_emitted.
    - vm_compute. reflexivity. }
  split; [reflexivity|]. split; [exact H|].
  exact (proj1 (listing_format LittleEndian (run_with None
    (snd (Probe.handler LittleEndian (ping_memory LittleEndian (B "/ping")) ping_ctx)))
    _ _ _ _ _ eq_refl eq_refl eq_refl eq_refl H)).
Defined.

Example ping_listing :
  Main.stdout (fst (Main.main LittleEndian (run_with None
    (snd (Probe.handler LittleEndian (ping_memory LittleEndian (B "/ping")) ping_ctx))))) =
    B "Method     Path" ++ LF ++ B "GET        /ping" ++ LF.
Proof. vm_compute. reflexivity. Qed.

(** ** Set-up, entries that do not decode, and the exit status *)

Lemma log_line_LF s : Main.log_line (s ++ LF) = s ++ LF.
Proof. unfold Main.log_line, LF. rewrite rev_app_distr. reflexivity. Qed.

Lemma log_line_nonempty s : Main.log_line s <> [].
Proof.
  unfold Main.log_line. destruct (rev s) as [|b r] eqn:E.
  - intros H. apply app_eq_nil in H. destruct H as [_ H]. discriminate H.
  - assert (Hs : s <> []) by (intros ->; discriminate E).
    destruct b; try (intros H; apply app_eq_nil in H; destruct H as [_ H]; discriminate H);
      exact Hs.
Qed.

Lemma Sprintf_load err :
  fmt.Sprintf (B "Failed to load kprobe: %s" ++ LF) [err] =
    (B "Failed to load kprobe: " ++ err) ++ LF.
Proof. run_format. unfold fmt.padString. rewrite <- app_assoc. reflexivity. Qed.

Lemma Sprintf_attach symbol err :
  fmt.Sprintf (B "could not attach uprobe to symbol: %s: %s") [symbol; err] =
    B "could not attach uprobe to symbol: " ++ symbol ++ B ": " ++ err.
Proof. run_format. unfold fmt.padString. rewrite app_nil_r. reflexivity. Qed.

Lemma Sprintf_perf err :
  fmt.Sprintf (B "Failed to init perf map: %s" ++ LF) [err] =
    (B "Failed to init perf map: " ++ err) ++ LF.
Proof. run_format. unfold fmt.padString. rewrite <- app_assoc. reflexivity. Qed.

Lemma log_line_cases s : Main.log_line s = s \/ Main.log_line s = s ++ LF.
Proof.
  unfold Main.log_line. destruct (rev s) as [|b r]; [right; reflexivity|].
  destruct b; (left; reflexivity) || (right; reflexivity).
Qed.

(** C7: with the two arguments given, a failing set-up call ends the run
    with status 1 after [log.Fatalf] has written a message that carries
    the error; until then only set-up calls were made, so nothing was
    printed and the perf map was not started. With a set-up that succeeds
    and a receiving goroutine that did not panic, the run ends with
    [perfMap.Stop()], the deferred [m.Close()] and status 0. *)
Theorem setup_failure_and_graceful_stop host w prog name symbol rest :
  Main.Args w = prog :: name :: symbol :: rest ->
  (Main.LoadKprobe_err w <> None \/ Main.AttachUprobe_err w <> None \/
   Main.InitPerfMap_err w <> None ->
   exists t msg err pre post,
     Main.main host w = (t ++ [Main.Fatalf msg], 1) /\
     Forall set_up_only t /\
     ~ In Main.Start t /\
     (forall out, ~ In (Main.Printf out) t) /\
     In (Some err) [Main.LoadKprobe_err w; Main.AttachUprobe_err w; Main.InitPerfMap_err w] /\
     msg = pre ++ err ++ post /\
     msg <> []) /\
  (Main.LoadKprobe_err w = None -> Main.AttachUprobe_err w = None ->
   Main.InitPerfMap_err w = None ->
   snd (Main.consumer host Main.event_zero (Main.received w)) <> Main.Panicked ->
   exists t,
     Main.main host w = (t ++ [Main.Stop; Main.Close], 0) /\ In Main.Start t).
Proof.
  intros Hargs. split.
  - intros Hfail. unfold Main.main. rewrite Hargs. cbn [nth_error].
    destruct (Main.LoadKprobe_err w) as [e1|].
    { exists [Main.LoadKprobe (B "handler")],
        (Main.log_line ((B "Failed to load kprobe: " ++ e1) ++ LF)),
        e1, (B "Failed to load kprobe: "), LF.
      rewrite Sprintf_load. split; [reflexivity|].
      split; [repeat constructor|]. split; [intros [H|[]]; discriminate H|].
      split; [intros out [H|[]]; discriminate H|].
      split; [left; reflexivity|]. split; [|apply log_line_nonempty].
      rewrite log_line_LF, <- app_assoc. reflexivity. }
    destruct (Main.AttachUprobe_err w) as [e2|].
    { destruct (log_line_cases (B "could not attach uprobe to symbol: " ++ symbol ++ B ": " ++ e2))
        as [Hc|Hc].
      - exists [Main.LoadKprobe (B "handler"); Main.AttachUprobe name symbol],
          (Main.log_line (B "could not attach uprobe to symbol: " ++ symbol ++ B ": " ++ e2)),
          e2, (B "could not attach uprobe to symbol: " ++ symbol ++ B ": "), [].
        rewrite Sprintf_attach. split; [reflexivity|].
        split; [repeat constructor|].
        split; [intros [H|[H|[]]]; discriminate H|].
        split; [intros out [H|[H|[]]]; discriminate H|].
        split; [right; left; reflexivity|]. split; [|apply log_line_nonempty].
        rewrite Hc, app_nil_r, <- !app_assoc. reflexivity.
      - exists [Main.LoadKprobe (B "handler"); Main.AttachUprobe name symbol],
          (Main.log_line (B "could not attach uprobe to symbol: " ++ symbol ++ B ": " ++ e2)),
          e2, (B "could not attach uprobe to symbol: " ++ symbol ++ B ": "), LF.
        rewrite Sprintf_attach. split; [reflexivity|].
        split; [repeat constructor|].
        split; [intros [H|[H|[]]]; discriminate H|].
        split; [intros out [H|[H|[]]]; discriminate H|].
        split; [right; left; reflexivity|]. split; [|apply log_line_nonempty].
        rewrite Hc, <- !app_assoc. reflexivity. }
    destruct (Main.InitPerfMap_err w) as [e3|].
    { exists [Main.LoadKprobe (B "handler"); Main.AttachUprobe name symbol; Main.InitPerfMap],
        (Main.log_line ((B "Failed to init perf map: " ++ e3) ++ LF)),
        e3, (B "Failed to init perf map: "), LF.
      rewrite Sprintf_perf. split; [reflexivity|].
      split; [repeat constructor|].
      split; [intros [H|[H|[H|[]]]]; discriminate H|].
      split; [intros out [H|[H|[H|[]]]]; discriminate H|].
      split; [right; right; left; reflexivity|]. split; [|apply log_line_nonempty].
      rewrite log_line_LF, <- app_assoc. reflexivity. }
    exfalso. destruct Hfail as [H|[H|H]]; apply H; reflexivity.
  - intros Hl Ha Hp Hlive. unfold Main.main. rewrite Hl, Hargs, Ha, Hp. cbn [nth_error].
    destruct (Main.consumer host Main.event_zero (Main.received w)) as [out g].
    destruct g as [e|]; [|exfalso; apply Hlive; reflexivity].
    eexists. split.
    + rewrite app_assoc. reflexivity.
    + apply in_or_app. left. do 4 right. left. reflexivity.
Qed.

Lemma setup_failure_and_graceful_stop_witness :
  Main.Args attach_failure = [B "gohttpsnoop"; B "./server/main"; B "main.ping"] /\
  snd (Main.main LittleEndian attach_failure) = 1 /\
  Main.Args quiet_run = [B "gohttpsnoop"; B "./server/main"; B "main.ping"] /\
  snd (Main.main LittleEndian quiet_run) = 0.
Proof.
  destruct (setup_failure_and_graceful_stop LittleEndian attach_failure _ _ _ _ eq_refl)
    as [Hfail _].
  destruct (setup_failure_and_graceful_stop LittleEndian quiet_run _ _ _ _ eq_refl)
    as [_ Hstop].
  destruct Hfail as (t & msg & err & pre & post & Hm & _);
    [right; left; discriminate|].
  destruct (Hstop eq_refl eq_refl eq_refl) as (t' & Hm' & _); [discriminate|].
  rewrite Hm, Hm'. repeat split; reflexivity.
Defined.

Example attach_failure_trace :
  Main.main LittleEndian attach_failure =
    ([Main.LoadKprobe (B "handler"); Main.AttachUprobe (B "./server/main") (B "main.ping");
      Main.Fatalf (B "could not attach uprobe to symbol: main.ping: no such symbol" ++ LF)], 1).
Proof. vm_compute. reflexivity. Qed.

Example quiet_run_trace :
  Main.main LittleEndian quiet_run =
    ([Main.LoadKprobe (B "handler"); Main.AttachUprobe (B "./server/main") (B "main.ping");
      Main.InitPerfMap; Main.Printf (B "Method     Path" ++ LF); Main.Start;
      Main.Stop; Main.Close], 0).
Proof. vm_compute. reflexivity. Qed.

(** C10: a channel entry shorter than the 154 bytes of the record.
    [binary.Read] returns an error and leaves [e] as it was; the goroutine
    prints the diagnostic with the error text and goes on with the next
    entry, printing nothing else for this one. *)
Theorem short_entry_is_skipped host e data channel :
  (length data < dataSize Main.event_fields)%nat ->
  dataSize Main.event_fields = 154%nat /\
  exists err,
    Main.Read data host e = (Some err, e) /\
    Main.consumer host e (data :: channel) =
      ((B "failed to decode packet: " ++ Main.Error err ++ LF)
         :: fst (Main.consumer host e channel),
       snd (Main.consumer host e channel)).
Proof.
  intros Hshort. split; [reflexivity|].
  change (dataSize Main.event_fields) with 154%nat in Hshort.
  exists (if (length data =? 0)%nat then Main.EOF else Main.ErrUnexpectedEOF).
  split; [apply Read_short; exact Hshort|].
  cbn [Main.consumer]. rewrite (Read_short host e data Hshort).
  destruct (Main.consumer host e channel) as [out g].
  rewrite Sprintf_decode_error. reflexivity.
Qed.

Lemma short_entry_is_skipped_witness :
  (length [x01; x02; x03] < dataSize Main.event_fields)%nat /\
  dataSize Main.event_fields = 154%nat /\
  exists err,
    Main.Read [x01; x02; x03] LittleEndian Main.event_zero = (Some err, Main.event_zero) /\
    Main.consumer LittleEndian Main.event_zero [[x01; x02; x03]; []] =
      ((B "failed to decode packet: " ++ Main.Error err ++ LF)
         :: fst (Main.consumer LittleEndian Main.event_zero [[]]),
       snd (Main.consumer LittleEndian Main.event_zero [[]])).
Proof.
  assert (H : (length [x01; x02; x03] < dataSize Main.event_fields)%nat)
    by (vm_compute; lia).
  split; [exact H|].
  exact (short_entry_is_skipped LittleEndian Main.event_zero [x01; x02; x03] [[]] H).
Defined.

Example short_entries_listing :
  Main.consumer LittleEndian Main.event_zero [[x01; x02; x03]; []] =
    ([B "failed to decode packet: unexpected EOF" ++ LF;
      B "failed to decode packet: EOF" ++ LF],
     Main.Receiving Main.event_zero).
Proof. vm_compute. reflexivity. Qed.

(** ** Lengths beyond the capacity on the consumer's side *)

Lemma consumer_panics host e data channel e' f :
  Main.Read data host e = (None, e') ->
  Z.of_nat (length (decoded_slot f e')) < decoded_len f e' ->
  Main.consumer host e (data :: channel) = ([], Main.Panicked).
Proof.
  intros Hr Hlong. cbn [Main.consumer]. rewrite Hr.
  assert (Hf : Main.fields e' = None).
  { rewrite fields_field_text. destruct f; unfold field_text at 1.
    - rewrite slice_to_beyond by exact Hlong. reflexivity.
    - destruct (Main.slice_to _ _); [|reflexivity].
      unfold field_text. rewrite slice_to_beyond by exact Hlong. reflexivity. }
  rewrite Hf. reflexivity.
Qed.

(** C1, the code at a path of 200 bytes: the handler emits a record whose
    path length reads 200 over a slot of 128 bytes; the consumer's slice
    expression on it panics, so no event is decoded, nothing is printed
    for it and the process ends with status 2. *)
Theorem long_path_panics_the_consumer :
  exists buf e,
    Probe.handler LittleEndian (ping_memory LittleEndian long_path) ping_ctx = (0, [buf]) /\
    Main.Read buf LittleEndian Main.event_zero = (None, e) /\
    Main.PathLen e = 200 /\
    length (Main.Path e) = 128%nat /\
    Main.slice_to (Main.Path e) (Main.PathLen e) = None /\
    Main.fields e = None /\
    Main.consumer LittleEndian Main.event_zero [buf] = ([], Main.Panicked) /\
    snd (Main.main LittleEndian (run_with None [buf])) = 2.
Proof.
  destruct (emitted_record LittleEndian (ping_memory LittleEndian long_path) ping_ctx)
    as (buf & Hh & _ & Hr).
  exists buf, (as_go (Probe.captured LittleEndian (ping_memory LittleEndian long_path) ping_ctx)).
  assert (Hc : Main.consumer LittleEndian Main.event_zero [buf] = ([], Main.Panicked)).
  { apply (consumer_panics _ _ _ _ _ path_field (Hr Main.event_zero)).
    vm_compute. reflexivity. }
  split; [exact Hh|]. split; [apply Hr|].
  split; [vm_compute; reflexivity|]. split; [vm_compute; reflexivity|].
  split; [vm_compute; reflexivity|]. split; [vm_compute; reflexivity|].
  split; [exact Hc|].
  unfold Main.main, run_with. cbn [Main.LoadKprobe_err Main.Args Main.AttachUprobe_err
    Main.InitPerfMap_err Main.received nth_error]. rewrite Hc. reflexivity.
Qed.

(** C3, the code at a path within its capacity next to a method beyond
    its own: for the method [PROPFINDXYZ] and the path [/ping] the frame
    is readable and the five bytes of the path fit the slot of 128; the
    handler emits a record that holds them with the length 5, but the
    consumer's statement that slices both fields panics on the method
    length 11, so the path is not decoded either: no pair of texts, no
    line besides the header, status 2. *)
Theorem short_path_lost_with_long_method :
  request_at LittleEndian (long_method_memory LittleEndian) (Probe.sp ping_ctx)
    {| Data := 3000; Len := 11 |} {| Data := 5000; Len := 5 |} /\
  (length (B "/ping") <= capacity path_field)%nat /\
  Probe.probe_kernel_read (long_method_memory LittleEndian) 5000 (length (B "/ping"))
    = Some (B "/ping") /\
  exists buf e,
    Probe.handler LittleEndian (long_method_memory LittleEndian) ping_ctx = (0, [buf]) /\
    Main.Read buf LittleEndian Main.event_zero = (None, e) /\
    Main.PathLen e = 5 /\
    firstn 5 (Main.Path e) = B "/ping" /\
    Main.MethodLen e = 11 /\
    Main.fields e = None /\
    Main.consumer LittleEndian Main.event_zero [buf] = ([], Main.Panicked) /\
    Main.stdout (fst (Main.main LittleEndian (run_with None [buf]))) =
      B "Method     Path" ++ LF /\
    snd (Main.main LittleEndian (run_with None [buf])) = 2.
Proof.
  split; [concrete_frame|]. split; [vm_compute; lia|]. split; [vm_compute; reflexivity|].
  destruct (emitted_record LittleEndian (long_method_memory LittleEndian) ping_ctx)
    as (buf & Hh & _ & Hr).
  exists buf, (as_go (Probe.captured LittleEndian (long_method_memory LittleEndian) ping_ctx)).
  assert (Hc : Main.consumer LittleEndian Main.event_zero [buf] = ([], Main.Panicked)).
  { apply (consumer_panics _ _ _ _ _ method_field (Hr Main.event_zero)).
    vm_compute. reflexivity. }
  split; [exact Hh|]. split; [apply Hr|].
  split; [vm_compute; reflexivity|]. split; [vm_compute; reflexivity|].
  split; [vm_compute; reflexivity|]. split; [vm_compute; reflexivity|].
  split; [exact Hc|].
  unfold Main.main, run_with. cbn [Main.LoadKprobe_err Main.Args Main.AttachUprobe_err
    Main.InitPerfMap_err Main.received nth_error]. rewrite Hc.
  split; reflexivity.
Qed.

(** * Further properties of the code *)

(** ** [binary.Read] on channel entries *)

Lemma ReadFull_enough data n :
  (n <= length data)%nat -> Main.ReadFull data n = inr (firstn n data).
Proof.
  intros H. unfold Main.ReadFull. destruct (Nat.leb_spec n (length data)); [reflexivity | lia].
Qed.

(** [binary.Read] succeeds exactly on the entries of at least 154 bytes;
    it then decodes the first 154 bytes only, so whatever follows them in
    the entry has no effect, and the previous value of [e] has none. *)
Theorem Read_succeeds_from_154_bytes host data e :
  (fst (Main.Read data host e) = None <-> (154 <= length data)%nat) /\
  ((154 <= length data)%nat ->
   forall tail e',
     Main.Read (data ++ tail) host e' = (None, Main.value host (firstn 154 data))).
Proof.
  split; [split|].
  - intros H. destruct (Nat.lt_ge_cases (length data) 154) as [Hs|Hs]; [|exact Hs].
    rewrite (Read_short host e data Hs) in H. discriminate H.
  - intros H. unfold Main.Read. change (dataSize Main.event_fields) with 154%nat.
    rewrite ReadFull_enough by exact H. reflexivity.
  - intros H tail e'. unfold Main.Read. change (dataSize Main.event_fields) with 154%nat.
    rewrite ReadFull_enough by (rewrite length_app; lia).
    rewrite firstn_app. replace (154 - length data)%nat with 0%nat by lia.
    cbn [firstn]. rewrite app_nil_r. reflexivity.
Qed.

Lemma value_split order buf :
  length buf = 154%nat ->
  exists b0 b1 b2 b3,
    buf = b0 ++ b1 ++ b2 ++ b3 /\
    length b0 = 8%nat /\ length b1 = 8%nat /\ length b2 = 10%nat /\ length b3 = 128%nat /\
    Main.value order buf =
      {| Main.MethodLen := Uint64 order b0; Main.PathLen := Uint64 order b1;
         Main.Method := b2; Main.Path := b3 |}.
Proof.
  intros Hl.
  exists (firstn 8 buf), (firstn 8 (skipn 8 buf)), (firstn 10 (skipn 16 buf)),
    (skipn 26 buf).
  assert (H0 : length (firstn 8 buf) = 8%nat) by (rewrite length_firstn; lia).
  assert (H1 : length (firstn 8 (skipn 8 buf)) = 8%nat)
    by (rewrite length_firstn, length_skipn; lia).
  assert (H2 : length (firstn 10 (skipn 16 buf)) = 10%nat)
    by (rewrite length_firstn, length_skipn; lia).
  assert (H3 : length (skipn 26 buf) = 128%nat) by (rewrite length_skipn; lia).
  assert (Hb : buf = firstn 8 buf ++ firstn 8 (skipn 8 buf) ++ firstn 10 (skipn 16 buf)
                       ++ skipn 26 buf).
  { rewrite <- (firstn_skipn 8 buf) at 1. f_equal.
    rewrite <- (firstn_skipn 8 (skipn 8 buf)) at 1. f_equal.
    rewrite skipn_skipn. cbn [Nat.add].
    rewrite <- (firstn_skipn 10 (skipn 16 buf)) at 1. f_equal.
    rewrite skipn_skipn. reflexivity. }
  split; [exact Hb|]. repeat (split; [assumption|]).
  rewrite Hb at 1. apply value_members; assumption.
Qed.

(** Decoding loses nothing of the record: laying out the decoded event
    as the C side does gives the first 154 bytes of the entry back,
    followed by the six bytes of tail padding. So two entries decode to
    the same event only when their first 154 bytes are the same. *)
Theorem Read_then_layout host data e e' :
  Main.Read data host e = (None, e') ->
  Probe.event_object host (as_c e') = firstn 154 data ++ zeros 6.
Proof.
  intros Hr.
  assert (Hlen : (154 <= length data)%nat).
  { destruct (Nat.lt_ge_cases (length data) 154) as [Hs|Hs]; [|exact Hs].
    rewrite (Read_short host e data Hs) in Hr. discriminate Hr. }
  unfold Main.Read in Hr. change (dataSize Main.event_fields) with 154%nat in Hr.
  rewrite ReadFull_enough in Hr by exact Hlen.
  apply (f_equal snd) in Hr. cbn [snd] in Hr. subst e'.
  destruct (value_split host (firstn 154 data)) as (b0 & b1 & b2 & b3 & Hb & H0 & H1 & H2 & H3 & Hv).
  { rewrite length_firstn. lia. }
  rewrite Hv. rewrite event_object_bytes by assumption.
  cbn [as_c Probe.method_len Probe.path_len Probe.method Probe.path
       Main.MethodLen Main.PathLen Main.Method Main.Path].
  rewrite !u64_bytes_Uint64 by assumption. rewrite Hb, <- !app_assoc. reflexivity.
Qed.

Lemma Read_then_layout_witness :
  Main.Read (B "0123456789abcdef" ++ zeros 138 ++ B "trailing") LittleEndian Main.event_zero =
    (None, Main.value LittleEndian (B "0123456789abcdef" ++ zeros 138)) /\
  Probe.event_object LittleEndian
    (as_c (Main.value LittleEndian (B "0123456789abcdef" ++ zeros 138))) =
    firstn 154 (B "0123456789abcdef" ++ zeros 138 ++ B "trailing") ++ zeros 6.
Proof.
  assert (H : Main.Read (B "0123456789abcdef" ++ zeros 138 ++ B "trailing") LittleEndian
                Main.event_zero =
              (None, Main.value LittleEndian (B "0123456789abcdef" ++ zeros 138)))
    by reflexivity.
  split; [exact H|].
  exact (Read_then_layout LittleEndian _ _ _ H).
Defined.

(** ** The receiving goroutine *)

(** Entries are handled one after the other: running the goroutine on
    [c1 ++ c2] is running it on [c1] and, if it did not panic, going on
    with [c2] from where it stands; after a panic nothing of [c2] is
    looked at. *)
Theorem consumer_app host c1 c2 : forall e,
  Main.consumer host e (c1 ++ c2) =
    match Main.consumer host e c1 with
    | (out1, Main.Receiving e1) =>
        (out1 ++ fst (Main.consumer host e1 c2), snd (Main.consumer host e1 c2))
    | (out1, Main.Panicked) => (out1, Main.Panicked)
    end.
Proof.
  induction c1 as [|data c1 IH]; intros e.
  - cbn [app Main.consumer]. destruct (Main.consumer host e c2). reflexivity.
  - cbn [app Main.consumer]. destruct (Main.Read data host e) as [[err|] e1].
    + rewrite IH. destruct (Main.consumer host e1 c1) as [out1 [e2|]]; reflexivity.
    + destruct (Main.fields e1) as [[method path]|]; [|reflexivity].
      rewrite IH. destruct (Main.consumer host e1 c1) as [out1 [e2|]]; reflexivity.
Qed.

(** The variable [e] that the loop reuses carries nothing from one entry
    to the next: what is printed, and whether the goroutine panics, is
    the same whatever [e] held before. *)
Theorem consumer_forgets_previous_event host channel : forall e e',
  fst (Main.consumer host e channel) = fst (Main.consumer host e' channel) /\
  same_standing (snd (Main.consumer host e channel)) (snd (Main.consumer host e' channel)).
Proof.
  induction channel as [|data channel IH]; intros e e'.
  - split; [reflexivity | exact I].
  - cbn [Main.consumer]. unfold Main.Read.
    destruct (Main.ReadFull data (dataSize Main.event_fields)) as [err|buf].
    + destruct (IH e e') as [Ho Hg].
      destruct (Main.consumer host e channel) as [out g].
      destruct (Main.consumer host e' channel) as [out' g'].
      cbn [fst snd] in *. split; [f_equal; exact Ho | exact Hg].
    + destruct (Main.fields (Main.value host buf)) as [[method path]|].
      * destruct (Main.consumer host (Main.value host buf) channel) as [out g].
        split; [reflexivity | destruct g; exact I].
      * split; [reflexivity | exact I].
Qed.

(** Every entry gives at most one [fmt.Printf], each ending with a line
    feed; as long as the goroutine does not panic it is exactly one per
    entry. *)
Theorem consumer_one_line_per_entry host channel : forall e,
  (length (fst (Main.consumer host e channel)) <= length channel)%nat /\
  Forall newline_terminated (fst (Main.consumer host e channel)) /\
  (snd (Main.consumer host e channel) <> Main.Panicked ->
   length (fst (Main.consumer host e channel)) = length channel).
Proof.
  induction channel as [|data channel IH]; intros e.
  - cbn. repeat split; [lia | constructor].
  - cbn [Main.consumer length].
    destruct (Main.Read data host e) as [[err|] e1].
    + destruct (IH e1) as (Hle & Hnl & Heq).
      destruct (Main.consumer host e1 channel) as [out g]. cbn [fst snd length] in *.
      split; [lia|]. split.
      * constructor; [|exact Hnl]. rewrite Sprintf_decode_error.
        exists (B "failed to decode packet: " ++ Main.Error err).
        rewrite <- app_assoc. reflexivity.
      * intros Hg. rewrite (Heq Hg). reflexivity.
    + destruct (Main.fields e1) as [[method path]|].
      * destruct (IH e1) as (Hle & Hnl & Heq).
        destruct (Main.consumer host e1 channel) as [out g]. cbn [fst snd length] in *.
        split; [lia|]. split.
        -- constructor; [|exact Hnl]. rewrite Sprintf_event. unfold listing_line.
           cbn [fst snd].
           exists (method ++ repeat x20 (10 - utf8.RuneCountInString method) ++ [x20] ++ path).
           rewrite <- !app_assoc. reflexivity.
        -- intros Hg. rewrite (Heq Hg). reflexivity.
      * cbn [fst snd length]. split; [lia|]. split; [constructor|].
        intros Hg. exfalso. apply Hg. reflexivity.
Qed.

(** ** The record of the handler on the consumer's side *)

Lemma fields_as_go_captured host m ctx :
  Main.fields (as_go (Probe.captured host m ctx)) =
    if (Probe.method_len (Probe.captured host m ctx) <=? 10)
       && (Probe.path_len (Probe.captured host m ctx) <=? 128)
    then Some (firstn (Z.to_nat (Probe.method_len (Probe.captured host m ctx)))
                 (Probe.method (Probe.captured host m ctx)),
               firstn (Z.to_nat (Probe.path_len (Probe.captured host m ctx)))
                 (Probe.path (Probe.captured host m ctx)))
    else None.
Proof.
  destruct (captured_well_formed host m ctx) as (Hm & Hp & _).
  unfold Main.fields, Main.slice_to, as_go.
  cbn [Main.Method Main.MethodLen Main.Path Main.PathLen].
  rewrite Hm, Hp. change (Z.of_nat 10) with 10. change (Z.of_nat 128) with 128.
  destruct (Probe.method_len (Probe.captured host m ctx) <=? 10); [|reflexivity].
  destruct (Probe.path_len (Probe.captured host m ctx) <=? 128); reflexivity.
Qed.

(** Whatever the memory of the target holds, the goroutine given the
    record of the handler panics exactly when one of the two lengths the
    handler stored exceeds its capacity; otherwise it prints one line of
    the listing, with the first [method_len] and [path_len] bytes of the
    two slots. *)
Theorem consumer_on_emitted_record host m ctx e0 :
  (snd (Main.consumer host e0 (snd (Probe.handler host m ctx))) = Main.Panicked <->
   10 < Probe.method_len (Probe.captured host m ctx) \/
   128 < Probe.path_len (Probe.captured host m ctx)) /\
  (Probe.method_len (Probe.captured host m ctx) <= 10 ->
   Probe.path_len (Probe.captured host m ctx) <= 128 ->
   Main.consumer host e0 (snd (Probe.handler host m ctx)) =
     ([listing_line
         (firstn (Z.to_nat (Probe.method_len (Probe.captured host m ctx)))
            (Probe.method (Probe.captured host m ctx)),
          firstn (Z.to_nat (Probe.path_len (Probe.captured host m ctx)))
            (Probe.path (Probe.captured host m ctx)))],
      Main.Receiving (as_go (Probe.captured host m ctx)))).
Proof.
  destruct (emitted_record host m ctx) as (buf & Hh & _ & Hr).
  rewrite Hh. cbn [snd Main.consumer]. rewrite (Hr e0), fields_as_go_captured.
  destruct (Z.leb_spec (Probe.method_len (Probe.captured host m ctx)) 10) as [Hm|Hm];
    destruct (Z.leb_spec (Probe.path_len (Probe.captured host m ctx)) 128) as [Hp|Hp];
    cbn [andb snd]; (split; [split|]); try reflexivity;
    try (intros H; discriminate H); try (intros; lia); try (intros _; lia).
  intros _ _. rewrite Sprintf_event. reflexivity.
Qed.

(** ** What the handler reads *)

Lemma event_eq (e e' : Probe.event) :
  (forall f, stored_len f e = stored_len f e' /\ slot f e = slot f e') -> e = e'.
Proof.
  intros H. destruct (H method_field) as [Hml Hm]. destruct (H path_field) as [Hpl Hp].
  destruct e, e'. cbn [stored_len slot Probe.method_len Probe.path_len Probe.method
    Probe.path] in *. subst. reflexivity.
Qed.

Lemma captured_slot_request host m ctx method path f :
  request_at host m (Probe.sp ctx) method path ->
  slot f (Probe.captured host m ctx) =
    snd (Probe.bpf_probe_read m (zeros (capacity f))
           (Z.min (Len (header f method path)) (Z.of_nat (capacity f)))
           (Data (header f method path))).
Proof.
  intros Hreq. destruct (captured_request host m ctx method path Hreq f) as [Hl Hp].
  rewrite captured_slot, Hl, Hp, guarded_min. reflexivity.
Qed.

(** The handler reads no byte of a value beyond its capacity: two target
    memories that hold the same frame and agree on the first
    [min(length, capacity)] bytes at the two data pointers give the same
    record, whatever else they hold. *)
Theorem handler_reads_within_capacity host m m' ctx method path :
  request_at host m (Probe.sp ctx) method path ->
  request_at host m' (Probe.sp ctx) method path ->
  (forall f,
     Probe.probe_kernel_read m (Data (header f method path))
       (Z.to_nat (Z.min (Len (header f method path)) (Z.of_nat (capacity f)))) =
     Probe.probe_kernel_read m' (Data (header f method path))
       (Z.to_nat (Z.min (Len (header f method path)) (Z.of_nat (capacity f))))) ->
  Probe.handler host m ctx = Probe.handler host m' ctx.
Proof.
  intros Hreq Hreq' Hsame. rewrite !handler_emits. do 3 f_equal.
  apply event_eq. intros f. split.
  - rewrite (proj1 (captured_request host m ctx method path Hreq f)).
    rewrite (proj1 (captured_request host m' ctx method path Hreq' f)). reflexivity.
  - rewrite (captured_slot_request host m ctx method path f Hreq).
    rewrite (captured_slot_request host m' ctx method path f Hreq').
    unfold Probe.bpf_probe_read. rewrite (Hsame f). reflexivity.
Qed.

Lemma handler_reads_within_capacity_witness :
  request_at LittleEndian (ping_memory LittleEndian long_path) (Probe.sp ping_ctx)
    {| Data := 3000; Len := 3 |} {| Data := 5000; Len := 200 |} /\
  request_at LittleEndian (ping_memory_page_end LittleEndian) (Probe.sp ping_ctx)
    {| Data := 3000; Len := 3 |} {| Data := 5000; Len := 200 |} /\
  Probe.probe_kernel_read (ping_memory LittleEndian long_path) 5000 200 = Some long_path /\
  Probe.probe_kernel_read (ping_memory_page_end LittleEndian) 5000 200 = None /\
  Probe.handler LittleEndian (ping_memory LittleEndian long_path) ping_ctx =
    Probe.handler LittleEndian (ping_memory_page_end LittleEndian) ping_ctx.
Proof.
  assert (H : request_at LittleEndian (ping_memory LittleEndian long_path) (Probe.sp ping_ctx)
                {| Data := 3000; Len := 3 |} {| Data := 5000; Len := 200 |})
    by concrete_frame.
  assert (H' : request_at LittleEndian (ping_memory_page_end LittleEndian) (Probe.sp ping_ctx)
                 {| Data := 3000; Len := 3 |} {| Data := 5000; Len := 200 |})
    by concrete_frame.
  split; [exact H|]. split; [exact H'|].
  split; [vm_compute; reflexivity|]. split; [vm_compute; reflexivity|].
  apply (handler_reads_within_capacity LittleEndian _ _ ping_ctx _ _ H H').
  intros f. destruct f; vm_compute; reflexivity.
Defined.

Lemma read_nothing_mapped m p n :
  nothing_mapped m -> Probe.probe_kernel_read m p (S n) = None.
Proof.
  intros H. cbn [Probe.probe_kernel_read]. rewrite (H p).
  destruct ((0 <=? p) && (p <? 2 ^ 64)); reflexivity.
Qed.

(** When nothing of the target can be read (it has exited, or the stack
    pointer leads nowhere), the handler still returns 0 and submits one
    record, of 160 zero bytes. *)
Theorem handler_on_unreadable_target host m ctx :
  nothing_mapped m ->
  Probe.handler host m ctx = (0, [zeros 160]).
Proof.
  intros Hm.
  assert (Hz : forall p, Probe.read_u64 host m p = 0)
    by (intros p; apply read_u64_fault, read_nothing_mapped, Hm).
  rewrite handler_emits. do 3 f_equal.
  assert (Hc : Probe.captured host m ctx = Probe.event_zero).
  { unfold Probe.captured. rewrite !Hz. reflexivity. }
  rewrite Hc. destruct host; vm_compute; reflexivity.
Qed.

Lemma handler_on_unreadable_target_witness :
  nothing_mapped unmapped /\
  Probe.handler BigEndian unmapped ping_ctx = (0, [zeros 160]).
Proof.
  assert (H : nothing_mapped unmapped) by (intros a; reflexivity).
  split; [exact H|]. exact (handler_on_unreadable_target BigEndian unmapped ping_ctx H).
Defined.



(** ** From the traced calls to the listing *)

Lemma captured_text host m ctx method path f bs :
  request_at host m (Probe.sp ctx) method path ->
  Len (header f method path) = Z.of_nat (length bs) ->
  (length bs <= capacity f)%nat ->
  Probe.probe_kernel_read m (Data (header f method path)) (length bs) = Some bs ->
  field_text f (as_go (Probe.captured host m ctx)) = Some bs.
Proof.
  intros Hreq Hlen Hfit Hread.
  destruct (captured_request host m ctx method path Hreq f) as [Hl _].
  rewrite field_text_captured by (rewrite Hl, Hlen; lia).
  rewrite (captured_slot_request host m ctx method path f Hreq), Hl, Hlen.
  replace (Z.min (Z.of_nat (length bs)) (Z.of_nat (capacity f)))
    with (Z.of_nat (length bs)) by lia.
  rewrite (copy_success m _ _ _ bs) by (rewrite Nat2Z.id; exact Hread).
  rewrite Nat2Z.id, firstn_exact. reflexivity.
Qed.

Lemma frame_decodes host inv mp :
  frame_holds host inv mp ->
  exists buf,
    snd (Probe.handler host (fst inv) (snd inv)) = [buf] /\ decodes_to host buf mp.
Proof.
  intros (method & path & Hreq & Hml & Hmf & Hmr & Hpl & Hpf & Hpr).
  destruct (emitted_record host (fst inv) (snd inv)) as (buf & Hh & _ & Hr).
  exists buf. rewrite Hh. split; [reflexivity|].
  exists (as_go (Probe.captured host (fst inv) (snd inv))). split; [apply Hr|].
  rewrite fields_field_text.
  rewrite (captured_text host _ _ method path method_field (fst mp) Hreq Hml Hmf Hmr).
  rewrite (captured_text host _ _ method path path_field (snd mp) Hreq Hpl Hpf Hpr).
  destruct mp. reflexivity.
Qed.

(** A sequence of calls of the traced function, each with a method of at
    most 10 and a path of at most 128 readable bytes: the goroutine given
    the records of the handler in order prints, for each call, the line
    of that call's own method and path, and ends waiting for more. *)
Theorem calls_are_listed_in_order host invs texts :
  Forall2 (frame_holds host) invs texts ->
  forall e, exists e',
    Main.consumer host e (submitted host invs) =
      (map listing_line texts, Main.Receiving e').
Proof.
  intros H. apply consumer_listing. unfold submitted.
  induction H as [|inv mp invs texts Hf _ IH]; [constructor|].
  cbn [flat_map]. destruct (frame_decodes host inv mp Hf) as (buf & -> & Hd).
  constructor; assumption.
Qed.

Lemma calls_are_listed_in_order_witness :
  Forall2 (frame_holds LittleEndian)
    [(ping_memory LittleEndian (B "/ping"), ping_ctx);
     (ping_memory LittleEndian (B "/"), ping_ctx)]
    [(B "GET", B "/ping"); (B "GET", B "/")] /\
  forall e, exists e',
    Main.consumer LittleEndian e
      (submitted LittleEndian
         [(ping_memory LittleEndian (B "/ping"), ping_ctx);
          (ping_memory LittleEndian (B "/"), ping_ctx)]) =
      (map listing_line [(B "GET", B "/ping"); (B "GET", B "/")], Main.Receiving e').
Proof.
  assert (H : Forall2 (frame_holds LittleEndian)
    [(ping_memory LittleEndian (B "/ping"), ping_ctx);
     (ping_memory LittleEndian (B "/"), ping_ctx)]
    [(B "GET", B "/ping"); (B "GET", B "/")]).
  { constructor; [|constructor; [|constructor]].
    - exists {| Data := 3000; Len := 3 |}, {| Data := 5000; Len := 5 |}.
      split; [concrete_frame|]. cbn [fst snd].
      repeat split; try (vm_compute; reflexivity); vm_compute; lia.
    - exists {| Data := 3000; Len := 3 |}, {| Data := 5000; Len := 1 |}.
      split; [concrete_frame|]. cbn [fst snd].
      repeat split; try (vm_compute; reflexivity); vm_compute; lia. }
  split; [exact H|]. exact (calls_are_listed_in_order LittleEndian _ _ H).
Defined.

(** ** The run of [main] *)

Lemma In_run (a : Main.action) setup out tl :
  In a (setup ++ map Main.Printf out ++ tl) <->
  In a setup \/ (exists o, a = Main.Printf o /\ In o out) \/ In a tl.
Proof.
  rewrite in_app_iff, in_app_iff, in_map_iff. split.
  - intros [H|[(o & Ho & Hi)|H]]; auto. right. left. exists o. split; [symmetry|]; assumption.
  - intros [H|[(o & Ho & Hi)|H]]; auto. right. left. exists o. split; [symmetry|]; assumption.
Qed.

Ltac main_cases w host :=
  unfold Main.main;
  destruct (Main.LoadKprobe_err w) as [?err|];
  [|destruct (nth_error (Main.Args w) 1) as [?name|] eqn:?Hname;
    [destruct (nth_error (Main.Args w) 2) as [?symbol|] eqn:?Hsymbol;
     [destruct (Main.AttachUprobe_err w) as [?err|];
      [|destruct (Main.InitPerfMap_err w) as [?err|];
        [|destruct (Main.consumer host Main.event_zero (Main.received w)) as [?out [?e|]]]]|]|]].

(** The exit status is 0, 1 or 2, and it is 0 exactly when both
    arguments are given, the three set-up calls succeed and the goroutine
    has not panicked. *)
Theorem main_exit_status host w :
  (snd (Main.main host w) = 0 \/ snd (Main.main host w) = 1 \/ snd (Main.main host w) = 2) /\
  (snd (Main.main host w) = 0 <->
   Main.LoadKprobe_err w = None /\ (3 <= length (Main.Args w))%nat /\
   Main.AttachUprobe_err w = None /\ Main.InitPerfMap_err w = None /\
   snd (Main.consumer host Main.event_zero (Main.received w)) <> Main.Panicked).
Proof.
  assert (Hlen : forall n, nth_error (Main.Args w) n = None <-> (length (Main.Args w) <= n)%nat)
    by (intros n; apply nth_error_None).
  split.
  - main_cases w host; cbn [snd]; auto.
  - split.
    + main_cases w host; cbn [snd]; intros H; try discriminate H.
      assert (2 < length (Main.Args w))%nat.
      { destruct (Nat.lt_ge_cases 2 (length (Main.Args w))) as [Hl|Hl]; [exact Hl|].
        apply Hlen in Hl. congruence. }
      repeat split; try lia. discriminate.
    + intros (Hl & Ha & Hat & Hp & Hg). unfold Main.main. rewrite Hl, Hat, Hp.
      destruct (nth_error (Main.Args w) 1) eqn:E1; [|apply Hlen in E1; lia].
      destruct (nth_error (Main.Args w) 2) eqn:E2; [|apply Hlen in E2; lia].
      destruct (Main.consumer host Main.event_zero (Main.received w)) as [out [e|]];
        [reflexivity | exfalso; apply Hg; reflexivity].
Qed.

(** [log.Fatalf] leaves through [os.Exit]: a run that ends with status 1
    never runs the deferred [m.Close()], never starts or stops the perf
    map and has written nothing to standard output. *)
Theorem fatal_exit_skips_deferred_close host w :
  snd (Main.main host w) = 1 ->
  ~ In Main.Close (fst (Main.main host w)) /\
  ~ In Main.Start (fst (Main.main host w)) /\
  ~ In Main.Stop (fst (Main.main host w)) /\
  Main.stdout (fst (Main.main host w)) = [].
Proof.
  main_cases w host; cbn [fst snd]; intros H; try discriminate H;
    repeat split; try reflexivity;
    cbn [In]; intros Hin;
    repeat match goal with
           | Hor : _ \/ _ |- _ => destruct Hor as [Hor|Hor]
           end; try discriminate; assumption.
Qed.

Lemma fatal_exit_skips_deferred_close_witness :
  snd (Main.main LittleEndian attach_failure) = 1 /\
  ~ In Main.Close (fst (Main.main LittleEndian attach_failure)).
Proof.
  assert (H : snd (Main.main LittleEndian attach_failure) = 1) by reflexivity.
  split; [exact H|].
  exact (proj1 (fatal_exit_skips_deferred_close LittleEndian attach_failure H)).
Defined.

(** Once the perf map has been started, standard output is the header
    line followed by exactly what the goroutine printed, diagnostics
    included, also when the run ends in a panic; and the deferred
    [m.Close()] then runs only if the goroutine has not panicked. *)
Theorem started_run_output host w :
  In Main.Start (fst (Main.main host w)) ->
  Main.stdout (fst (Main.main host w)) =
    (B "Method     Path" ++ LF)
      ++ concat (fst (Main.consumer host Main.event_zero (Main.received w))) /\
  (In Main.Close (fst (Main.main host w)) <->
   snd (Main.consumer host Main.event_zero (Main.received w)) <> Main.Panicked).
Proof.
  main_cases w host; cbn [fst snd]; intros Hin;
    try (cbn [In] in Hin;
         repeat match goal with
                | Hor : _ \/ _ |- _ => destruct Hor as [Hor|Hor]
                end; try discriminate; contradiction).
  - split.
    + rewrite stdout_app, stdout_app, stdout_Printf.
      change (Main.stdout [Main.Stop; Main.Close]) with (@nil byte). rewrite app_nil_r.
      f_equal.
    + split; [discriminate|]. intros _. apply In_run. right. right. right. left. reflexivity.
  - split.
    + rewrite stdout_app, stdout_app, stdout_Printf.
      change (Main.stdout [Main.Panic]) with (@nil byte). rewrite app_nil_r. f_equal.
    + split; [|intros H; exfalso; apply H; reflexivity].
      intros Hc. apply In_run in Hc. cbn [In] in Hc.
      destruct Hc as [Hc|[(o & Ho & _)|Hc]];
        repeat match goal with
               | Hor : _ \/ _ |- _ => destruct Hor as [Hor|Hor]
               end; try discriminate; contradiction.
Qed.

Lemma started_run_output_witness :
  In Main.Start (fst (Main.main LittleEndian (run_with None [[x01]; zeros 154; []]))) /\
  Main.stdout (fst (Main.main LittleEndian (run_with None [[x01]; zeros 154; []]))) =
    (B "Method     Path" ++ LF)
      ++ concat (fst (Main.consumer LittleEndian Main.event_zero [[x01]; zeros 154; []])).
Proof.
  assert (H : In Main.Start
                (fst (Main.main LittleEndian (run_with None [[x01]; zeros 154; []]))))
    by (vm_compute; tauto).
  split; [exact H|].
  exact (proj1 (started_run_output LittleEndian (run_with None [[x01]; zeros 154; []]) H)).
Defined.

(** ** Slots beyond the copied bytes *)

(** Whatever the target holds, each slot of the record has its full
    capacity, and everything in it after the bytes the handler asked to
    copy is zero: a short value is followed by zero bytes, never by
    earlier content. *)
Theorem slot_tail_is_zero host m ctx f :
  length (slot f (Probe.captured host m ctx)) = capacity f /\
  (copy_size host m ctx f <= capacity f)%nat /\
  skipn (copy_size host m ctx f) (slot f (Probe.captured host m ctx)) =
    zeros (capacity f - copy_size host m ctx f).
Proof.
  pose proof (stored_len_range host m ctx f) as Hr.
  pose proof (guarded_le (stored_len f (Probe.captured host m ctx)) (Z.of_nat (capacity f))) as Hg.
  assert (Hc : (copy_size host m ctx f <= capacity f)%nat) by (unfold copy_size; lia).
  split; [apply slot_length|]. split; [exact Hc|].
  destruct (slot_of_copy host m ctx f) as [Hnone Hsome].
  destruct (Probe.probe_kernel_read m (data_pointer host m ctx f) (copy_size host m ctx f))
    as [bs|] eqn:E.
  - rewrite (Hsome bs eq_refl). pose proof (probe_kernel_read_length _ _ _ _ E) as Hl.
    rewrite <- Hl at 1. rewrite skipn_app, skipn_all, Nat.sub_diag. cbn [skipn app].
    rewrite Hl. reflexivity.
  - rewrite (Hnone eq_refl). apply skipn_zeros.
Qed.
